(** * SebType typing engine (scripts/typing.js): model and verified properties

    The development embeds the [TypingEngine] class of scripts/typing.js.

    Conventions of the embedding.
    - A JavaScript string is its sequence of UTF-16 code units ([jsstring]).
    - The integer-valued fields (counters, timestamps, limits) are [Z],
      exact as JavaScript numbers are below 2^53; [null] is [None].  The
      derived metrics ([getWPM], [getRawSpeed], [getAccuracy]) are computed
      in IEEE 754 binary64 through the Standard Library's [SpecFloat], as
      JavaScript computes them, so that [Math.round] sees the same quotient.
    - A method mutates [this]: it is a function from engine state to engine
      state.  [Date.now()] is an argument [now] of the call (one reading per
      call) and [Math.random()] an argument [rnd], the sequence of draws.
    - A callback ([onStart], [onTick], ...) is a flag saying whether the
      caller registered one; an invocation is an entry appended to the
      [emitted] trace, as is a write to localStorage.  Callbacks do not
      re-enter the engine.
    - Loops whose termination depends on the data take [fuel]; [None] means
      the fuel ran out. *)

From Stdlib Require Import ZArith Lia Bool List String Ascii SpecFloat.
From Stdlib Require DecimalPos.
From stdpp Require Import base list.
Import ListNotations.
Open Scope Z_scope.

(** ** JavaScript strings *)

Definition jsstring := list N.

Fixpoint lit (s : string) : jsstring :=
  match s with
  | EmptyString => []
  | String c r => N_of_ascii c :: lit r
  end.

Definition str_eqb (a b : jsstring) : bool := bool_decide (a = b).

(** [a.length] of a string or an array *)
Definition len {A : Type} (a : list A) : Z := Z.of_nat (length a).

(** WhiteSpace and LineTerminator code units, the set [String.prototype.trim]
    strips. *)
Definition is_js_space (c : N) : bool :=
  (  (c =? 9) || (c =? 10) || (c =? 11) || (c =? 12) || (c =? 13) || (c =? 32)
  || (c =? 160) || (c =? 5760) || ((8192 <=? c) && (c <=? 8202))
  || (c =? 8232) || (c =? 8233) || (c =? 8239) || (c =? 8287)
  || (c =? 12288) || (c =? 65279))%N.

Fixpoint trim_start (s : jsstring) : jsstring :=
  match s with
  | c :: r => if is_js_space c then trim_start r else s
  | [] => []
  end.

Definition trim_end (s : jsstring) : jsstring := rev (trim_start (rev s)).

(** [value.trim()] *)
Definition trim (s : jsstring) : jsstring := trim_end (trim_start s).

Definition SPACE : N := 32.

(** [value.endsWith(' ')] *)
Definition ends_with_space (s : jsstring) : bool :=
  match last s with
  | Some c => (c =? SPACE)%N
  | None => false
  end.

(** [s.slice(0, -1)] *)
Definition drop_last (s : jsstring) : jsstring := take (length s - 1) s.

(** [q.split(' ')] *)
Fixpoint split_on (sep : N) (cur : jsstring) (s : jsstring) : list jsstring :=
  match s with
  | [] => [rev cur]
  | c :: r => if (c =? sep)%N then rev cur :: split_on sep [] r
              else split_on sep (c :: cur) r
  end.

Definition split_space (s : jsstring) : list jsstring := split_on SPACE [] s.

(** [String(n)] for a non-negative integer [n] *)
Fixpoint uint_units (d : Decimal.uint) : jsstring :=
  match d with
  | Decimal.Nil => []
  | Decimal.D0 r => 48%N :: uint_units r
  | Decimal.D1 r => 49%N :: uint_units r
  | Decimal.D2 r => 50%N :: uint_units r
  | Decimal.D3 r => 51%N :: uint_units r
  | Decimal.D4 r => 52%N :: uint_units r
  | Decimal.D5 r => 53%N :: uint_units r
  | Decimal.D6 r => 54%N :: uint_units r
  | Decimal.D7 r => 55%N :: uint_units r
  | Decimal.D8 r => 56%N :: uint_units r
  | Decimal.D9 r => 57%N :: uint_units r
  end.

Definition String_of_N (n : N) : jsstring := uint_units (N.to_uint n).

(** ** JavaScript numbers: IEEE 754 binary64 *)

Definition float64 := spec_float.

Definition prec64 : Z := 53.
Definition emax64 : Z := 1024.

Definition of_Z (z : Z) : float64 := binary_normalize prec64 emax64 z 0 false.
Definition fdiv (x y : float64) : float64 := SFdiv prec64 emax64 x y.
Definition fmul (x y : float64) : float64 := SFmul prec64 emax64 x y.
Definition fzero : float64 := S754_zero false.

(** [a > b] on numbers *)
Definition fgtb (a b : float64) : bool := SFltb b a.

(** [Math.round(x)]: the integer nearest to [x], ties towards +infinity;
    the sign of a zero result is the sign of [x]. *)
Definition Math_round (x : float64) : float64 :=
  match x with
  | S754_finite s m e =>
      if 0 <=? e then x
      else
        let d := 2 ^ (- e) in
        let v := if s then Z.neg m else Z.pos m in
        let n := (2 * v + d) / (2 * d) in
        if n =? 0 then S754_zero s else of_Z n
  | _ => x
  end.

(** [x || 0]: a falsy number (NaN, +0, -0) is replaced by [0]. *)
Definition or_zero (x : float64) : float64 :=
  match x with
  | S754_nan | S754_zero _ => fzero
  | _ => x
  end.

(** The integer a number denotes, when it denotes one. *)
Definition float_to_Z (x : float64) : option Z :=
  match x with
  | S754_zero _ => Some 0
  | S754_finite s m e =>
      if 0 <=? e then Some ((if s then Z.neg m else Z.pos m) * 2 ^ e)
      else if (Z.pos m mod 2 ^ (- e) =? 0)
           then Some ((if s then Z.neg m else Z.pos m) / 2 ^ (- e))
           else None
  | _ => None
  end.

(** ** Engine state *)

(** An entry of [wordHistory]; [wr_word] is [None] where the source stores
    [undefined] and [wr_perfect] is [None] where the key is absent. *)
Record WordResult := mkWordResult {
  wr_word : option jsstring;
  wr_typed : jsstring;
  wr_correct : Z;
  wr_perfect : option bool;
  wr_timeTaken : Z
}.

Record Best := mkBest { b_wpm : float64; b_accuracy : float64; b_raw : float64 }.

(** One entry of [getCurrentWordState().chars]; [cs_correct] is the
    truthiness of [u && u === t]. *)
Record CharState := mkCharState {
  cs_target : jsstring;
  cs_typed : jsstring;
  cs_correct : bool
}.

Record WordState := mkWordState {
  ws_word : jsstring;
  ws_typed : jsstring;
  ws_chars : list CharState;
  ws_isComplete : bool;
  ws_correctCount : Z
}.

Inductive Event :=
| EvStart
| EvTick (timeLeft elapsed : Z) (wpm : float64)
| EvFinish (wpm accuracy raw : float64)
| EvUpdateWordState (ws : WordState)
| EvSaveBest (b : Best).

Record Engine := mkEngine {
  timeLimit : Z;  (* seconds *)
  mode : jsstring;
  wordsPool : list jsstring;
  seedSize : Z;
  spaceCountsAsChar : bool;
  words : list jsstring;  (* the words of this test *)
  currentWordIndex : nat;  (* index into [words] *)
  currentInput : jsstring;  (* content of the input field *)
  startedAt : option Z;  (* timestamp in ms, [None] is null *)
  endedAt : option Z;
  started : bool;
  finished : bool;
  timeLeft : Z;
  typedChars : Z;  (* every char typed *)
  correctChars : Z;  (* correctly typed chars *)
  wordHistory : list WordResult;
  wpmHistory : list float64;  (* wpm snapshots for the graph *)
  tickIntervalMs : Z;
  lastTickAt : option Z;
  onStart : bool;  (* is a callback registered? *)
  onTick : bool;
  onFinish : bool;
  onUpdateWordState : bool;
  localStorageKey : jsstring;
  best : Best;
  historyInterval : bool;  (* is the [_historyInterval] timer armed? *)
  emitted : list Event  (* callback invocations and storage writes, oldest first *)
}.

(** Field updates ([this.f = v]). *)
Definition set_timeLimit (v : Z) (s : Engine) : Engine :=
  mkEngine v (mode s) (wordsPool s) (seedSize s) (spaceCountsAsChar s)
    (words s) (currentWordIndex s) (currentInput s) (startedAt s)
    (endedAt s) (started s) (finished s) (timeLeft s) (typedChars s)
    (correctChars s) (wordHistory s) (wpmHistory s) (tickIntervalMs s)
    (lastTickAt s) (onStart s) (onTick s) (onFinish s) (onUpdateWordState s)
    (localStorageKey s) (best s) (historyInterval s) (emitted s).

Definition set_mode (v : jsstring) (s : Engine) : Engine :=
  mkEngine (timeLimit s) v (wordsPool s) (seedSize s) (spaceCountsAsChar s)
    (words s) (currentWordIndex s) (currentInput s) (startedAt s)
    (endedAt s) (started s) (finished s) (timeLeft s) (typedChars s)
    (correctChars s) (wordHistory s) (wpmHistory s) (tickIntervalMs s)
    (lastTickAt s) (onStart s) (onTick s) (onFinish s) (onUpdateWordState s)
    (localStorageKey s) (best s) (historyInterval s) (emitted s).

Definition set_words (v : list jsstring) (s : Engine) : Engine :=
  mkEngine (timeLimit s) (mode s) (wordsPool s) (seedSize s)
    (spaceCountsAsChar s) v (currentWordIndex s) (currentInput s)
    (startedAt s) (endedAt s) (started s) (finished s) (timeLeft s)
    (typedChars s) (correctChars s) (wordHistory s) (wpmHistory s)
    (tickIntervalMs s) (lastTickAt s) (onStart s) (onTick s) (onFinish s)
    (onUpdateWordState s) (localStorageKey s) (best s) (historyInterval s)
    (emitted s).

Definition set_currentWordIndex (v : nat) (s : Engine) : Engine :=
  mkEngine (timeLimit s) (mode s) (wordsPool s) (seedSize s)
    (spaceCountsAsChar s) (words s) v (currentInput s) (startedAt s)
    (endedAt s) (started s) (finished s) (timeLeft s) (typedChars s)
    (correctChars s) (wordHistory s) (wpmHistory s) (tickIntervalMs s)
    (lastTickAt s) (onStart s) (onTick s) (onFinish s) (onUpdateWordState s)
    (localStorageKey s) (best s) (historyInterval s) (emitted s).

Definition set_currentInput (v : jsstring) (s : Engine) : Engine :=
  mkEngine (timeLimit s) (mode s) (wordsPool s) (seedSize s)
    (spaceCountsAsChar s) (words s) (currentWordIndex s) v (startedAt s)
    (endedAt s) (started s) (finished s) (timeLeft s) (typedChars s)
    (correctChars s) (wordHistory s) (wpmHistory s) (tickIntervalMs s)
    (lastTickAt s) (onStart s) (onTick s) (onFinish s) (onUpdateWordState s)
    (localStorageKey s) (best s) (historyInterval s) (emitted s).

Definition set_startedAt (v : option Z) (s : Engine) : Engine :=
  mkEngine (timeLimit s) (mode s) (wordsPool s) (seedSize s)
    (spaceCountsAsChar s) (words s) (currentWordIndex s) (currentInput s) v
    (endedAt s) (started s) (finished s) (timeLeft s) (typedChars s)
    (correctChars s) (wordHistory s) (wpmHistory s) (tickIntervalMs s)
    (lastTickAt s) (onStart s) (onTick s) (onFinish s) (onUpdateWordState s)
    (localStorageKey s) (best s) (historyInterval s) (emitted s).

Definition set_endedAt (v : option Z) (s : Engine) : Engine :=
  mkEngine (timeLimit s) (mode s) (wordsPool s) (seedSize s)
    (spaceCountsAsChar s) (words s) (currentWordIndex s) (currentInput s)
    (startedAt s) v (started s) (finished s) (timeLeft s) (typedChars s)
    (correctChars s) (wordHistory s) (wpmHistory s) (tickIntervalMs s)
    (lastTickAt s) (onStart s) (onTick s) (onFinish s) (onUpdateWordState s)
    (localStorageKey s) (best s) (historyInterval s) (emitted s).

Definition set_started (v : bool) (s : Engine) : Engine :=
  mkEngine (timeLimit s) (mode s) (wordsPool s) (seedSize s)
    (spaceCountsAsChar s) (words s) (currentWordIndex s) (currentInput s)
    (startedAt s) (endedAt s) v (finished s) (timeLeft s) (typedChars s)
    (correctChars s) (wordHistory s) (wpmHistory s) (tickIntervalMs s)
    (lastTickAt s) (onStart s) (onTick s) (onFinish s) (onUpdateWordState s)
    (localStorageKey s) (best s) (historyInterval s) (emitted s).

Definition set_finished (v : bool) (s : Engine) : Engine :=
  mkEngine (timeLimit s) (mode s) (wordsPool s) (seedSize s)
    (spaceCountsAsChar s) (words s) (currentWordIndex s) (currentInput s)
    (startedAt s) (endedAt s) (started s) v (timeLeft s) (typedChars s)
    (correctChars s) (wordHistory s) (wpmHistory s) (tickIntervalMs s)
    (lastTickAt s) (onStart s) (onTick s) (onFinish s) (onUpdateWordState s)
    (localStorageKey s) (best s) (historyInterval s) (emitted s).

Definition set_timeLeft (v : Z) (s : Engine) : Engine :=
  mkEngine (timeLimit s) (mode s) (wordsPool s) (seedSize s)
    (spaceCountsAsChar s) (words s) (currentWordIndex s) (currentInput s)
    (startedAt s) (endedAt s) (started s) (finished s) v (typedChars s)
    (correctChars s) (wordHistory s) (wpmHistory s) (tickIntervalMs s)
    (lastTickAt s) (onStart s) (onTick s) (onFinish s) (onUpdateWordState s)
    (localStorageKey s) (best s) (historyInterval s) (emitted s).

Definition set_typedChars (v : Z) (s : Engine) : Engine :=
  mkEngine (timeLimit s) (mode s) (wordsPool s) (seedSize s)
    (spaceCountsAsChar s) (words s) (currentWordIndex s) (currentInput s)
    (startedAt s) (endedAt s) (started s) (finished s) (timeLeft s) v
    (correctChars s) (wordHistory s) (wpmHistory s) (tickIntervalMs s)
    (lastTickAt s) (onStart s) (onTick s) (onFinish s) (onUpdateWordState s)
    (localStorageKey s) (best s) (historyInterval s) (emitted s).

Definition set_correctChars (v : Z) (s : Engine) : Engine :=
  mkEngine (timeLimit s) (mode s) (wordsPool s) (seedSize s)
    (spaceCountsAsChar s) (words s) (currentWordIndex s) (currentInput s)
    (startedAt s) (endedAt s) (started s) (finished s) (timeLeft s)
    (typedChars s) v (wordHistory s) (wpmHistory s) (tickIntervalMs s)
    (lastTickAt s) (onStart s) (onTick s) (onFinish s) (onUpdateWordState s)
    (localStorageKey s) (best s) (historyInterval s) (emitted s).

Definition set_wordHistory (v : list WordResult) (s : Engine) : Engine :=
  mkEngine (timeLimit s) (mode s) (wordsPool s) (seedSize s)
    (spaceCountsAsChar s) (words s) (currentWordIndex s) (currentInput s)
    (startedAt s) (endedAt s) (started s) (finished s) (timeLeft s)
    (typedChars s) (correctChars s) v (wpmHistory s) (tickIntervalMs s)
    (lastTickAt s) (onStart s) (onTick s) (onFinish s) (onUpdateWordState s)
    (localStorageKey s) (best s) (historyInterval s) (emitted s).

Definition set_wpmHistory (v : list float64) (s : Engine) : Engine :=
  mkEngine (timeLimit s) (mode s) (wordsPool s) (seedSize s)
    (spaceCountsAsChar s) (words s) (currentWordIndex s) (currentInput s)
    (startedAt s) (endedAt s) (started s) (finished s) (timeLeft s)
    (typedChars s) (correctChars s) (wordHistory s) v (tickIntervalMs s)
    (lastTickAt s) (onStart s) (onTick s) (onFinish s) (onUpdateWordState s)
    (localStorageKey s) (best s) (historyInterval s) (emitted s).

Definition set_lastTickAt (v : option Z) (s : Engine) : Engine :=
  mkEngine (timeLimit s) (mode s) (wordsPool s) (seedSize s)
    (spaceCountsAsChar s) (words s) (currentWordIndex s) (currentInput s)
    (startedAt s) (endedAt s) (started s) (finished s) (timeLeft s)
    (typedChars s) (correctChars s) (wordHistory s) (wpmHistory s)
    (tickIntervalMs s) v (onStart s) (onTick s) (onFinish s)
    (onUpdateWordState s) (localStorageKey s) (best s) (historyInterval s)
    (emitted s).

Definition set_onStart (v : bool) (s : Engine) : Engine :=
  mkEngine (timeLimit s) (mode s) (wordsPool s) (seedSize s)
    (spaceCountsAsChar s) (words s) (currentWordIndex s) (currentInput s)
    (startedAt s) (endedAt s) (started s) (finished s) (timeLeft s)
    (typedChars s) (correctChars s) (wordHistory s) (wpmHistory s)
    (tickIntervalMs s) (lastTickAt s) v (onTick s) (onFinish s)
    (onUpdateWordState s) (localStorageKey s) (best s) (historyInterval s)
    (emitted s).

Definition set_onTick (v : bool) (s : Engine) : Engine :=
  mkEngine (timeLimit s) (mode s) (wordsPool s) (seedSize s)
    (spaceCountsAsChar s) (words s) (currentWordIndex s) (currentInput s)
    (startedAt s) (endedAt s) (started s) (finished s) (timeLeft s)
    (typedChars s) (correctChars s) (wordHistory s) (wpmHistory s)
    (tickIntervalMs s) (lastTickAt s) (onStart s) v (onFinish s)
    (onUpdateWordState s) (localStorageKey s) (best s) (historyInterval s)
    (emitted s).

Definition set_onFinish (v : bool) (s : Engine) : Engine :=
  mkEngine (timeLimit s) (mode s) (wordsPool s) (seedSize s)
    (spaceCountsAsChar s) (words s) (currentWordIndex s) (currentInput s)
    (startedAt s) (endedAt s) (started s) (finished s) (timeLeft s)
    (typedChars s) (correctChars s) (wordHistory s) (wpmHistory s)
    (tickIntervalMs s) (lastTickAt s) (onStart s) (onTick s) v
    (onUpdateWordState s) (localStorageKey s) (best s) (historyInterval s)
    (emitted s).

Definition set_onUpdateWordState (v : bool) (s : Engine) : Engine :=
  mkEngine (timeLimit s) (mode s) (wordsPool s) (seedSize s)
    (spaceCountsAsChar s) (words s) (currentWordIndex s) (currentInput s)
    (startedAt s) (endedAt s) (started s) (finished s) (timeLeft s)
    (typedChars s) (correctChars s) (wordHistory s) (wpmHistory s)
    (tickIntervalMs s) (lastTickAt s) (onStart s) (onTick s) (onFinish s) v
    (localStorageKey s) (best s) (historyInterval s) (emitted s).

Definition set_best (v : Best) (s : Engine) : Engine :=
  mkEngine (timeLimit s) (mode s) (wordsPool s) (seedSize s)
    (spaceCountsAsChar s) (words s) (currentWordIndex s) (currentInput s)
    (startedAt s) (endedAt s) (started s) (finished s) (timeLeft s)
    (typedChars s) (correctChars s) (wordHistory s) (wpmHistory s)
    (tickIntervalMs s) (lastTickAt s) (onStart s) (onTick s) (onFinish s)
    (onUpdateWordState s) (localStorageKey s) v (historyInterval s)
    (emitted s).

Definition set_historyInterval (v : bool) (s : Engine) : Engine :=
  mkEngine (timeLimit s) (mode s) (wordsPool s) (seedSize s)
    (spaceCountsAsChar s) (words s) (currentWordIndex s) (currentInput s)
    (startedAt s) (endedAt s) (started s) (finished s) (timeLeft s)
    (typedChars s) (correctChars s) (wordHistory s) (wpmHistory s)
    (tickIntervalMs s) (lastTickAt s) (onStart s) (onTick s) (onFinish s)
    (onUpdateWordState s) (localStorageKey s) (best s) v (emitted s).

Definition set_emitted (v : list Event) (s : Engine) : Engine :=
  mkEngine (timeLimit s) (mode s) (wordsPool s) (seedSize s)
    (spaceCountsAsChar s) (words s) (currentWordIndex s) (currentInput s)
    (startedAt s) (endedAt s) (started s) (finished s) (timeLeft s)
    (typedChars s) (correctChars s) (wordHistory s) (wpmHistory s)
    (tickIntervalMs s) (lastTickAt s) (onStart s) (onTick s) (onFinish s)
    (onUpdateWordState s) (localStorageKey s) (best s) (historyInterval s) v.

(** ** The random source

    [rnd k] is the [k]-th draw of [Math.random()] within a call: the
    number [(rnd k mod 2^53) / 2^53] of the interval [0, 1). *)

Definition draw (rnd : nat -> N) (k : nat) : N := (rnd k mod 2 ^ 53)%N.

(** [Math.floor(Math.random() * n)], an index below [n]; the product is
    taken exactly. *)
Definition rand_floor (rnd : nat -> N) (k : nat) (n : N) : N :=
  (draw rnd k * n / 2 ^ 53)%N.

(** [r > 0.8] and [r > 0.5]; the literal 0.8 is the binary64 number
    7205759403792794 / 2^53. *)
Definition gt_0_8 (r : N) : bool := (7205759403792794 <? r)%N.
Definition gt_0_5 (r : N) : bool := (2 ^ 52 <? r)%N.

(** ** Module-level helpers of typing.js *)

Definition DEFAULT_WORDS : list jsstring := map lit
  [ "the";"and";"to";"of";"a";"in";"that";"it";"is";"was";"i";"for";"on";"you";"he";"be";"with";
    "as";"by";"at";"have";"are";"this";"not";"but";"had";"his";"they";"from";"she";"which";"or";
    "we";"an";"there";"their";"one";"all";"would";"when";"who";"what";"so";"up";"out";"if";"about";
    "get";"can";"like";"me";"just";"him";"know";"take";"into";"your";"good";"some";"could";"them";
    "see";"other";"than";"then";"now";"look";"only";"come";"its";"over";"think";"also";"back";"after";
    "use";"two";"how";"our";"work";"first";"well";"way";"even";"new";"want";"because";"any";"these";
    "give";"day";"most";"us" ]%string.

(** [[a[i], a[j]] = [a[j], a[i]]]; both indices are inside the array
    wherever [shuffleArray] swaps. *)
Definition swap (a : list jsstring) (i j : nat) : list jsstring :=
  match a !! i, a !! j with
  | Some x, Some y => <[j := x]> (<[i := y]> a)
  | _, _ => a
  end.

(** The loop of [shuffleArray]: [for (let i = ...; i > 0; i--)], with [k]
    the number of draws made so far. *)
Fixpoint shuffle_loop (rnd : nat -> N) (i k : nat) (a : list jsstring)
  : list jsstring :=
  match i with
  | O => a
  | S i' =>
      let j := N.to_nat (rand_floor rnd k (N.of_nat (i + 1))) in
      shuffle_loop rnd i' (S k) (swap a i j)
  end.

Definition shuffleArray (rnd : nat -> N) (arr : list jsstring) : list jsstring :=
  shuffle_loop rnd (length arr - 1) 0 arr.

(** [clamp(v, lo, hi)]; typing.js defines it and never calls it. *)
Definition clamp (v lo hi : Z) : Z := Z.max lo (Z.min hi v).

(** ** Word generation *)

Definition sampleQuotes : list jsstring := map lit
  [ "To be or not to be";
    "I think therefore I am";
    "There is no substitute for hard work";
    "All that glitters is not gold";
    "The only limit to our realization of tomorrow is our doubts of today";
    "Life is what happens when you're busy making other plans";
    "Get busy living or get busy dying" ]%string.

(** numbers mode: [for (let i = 0; i < count; i++)], [n] iterations left *)
Fixpoint gen_numbers (rnd : nat -> N) (n k : nat) (out : list jsstring)
  : list jsstring :=
  match n with
  | O => out
  | S n' =>
      let r := draw rnd k in
      let tok :=
        if gt_0_8 r then String_of_N (rand_floor rnd (S k) 9000 + 100)
        else if gt_0_5 r then String_of_N (rand_floor rnd (S k) 100)
        else String_of_N (rand_floor rnd (S k) 10) in
      gen_numbers rnd n' (S (S k)) (out ++ [tok])
  end.

(** quotes mode, inner loop:
    [for (let i = 0; i < parts.length && out.length < count; i++)] *)
Fixpoint push_parts (count : Z) (parts out : list jsstring) : list jsstring :=
  match parts with
  | [] => out
  | p :: ps =>
      if len out <? count then push_parts count ps (out ++ [p]) else out
  end.

(** quotes mode, outer loop: [while (out.length < count)] *)
Fixpoint gen_quotes (fuel : nat) (rnd : nat -> N) (count : Z) (k : nat)
  (out : list jsstring) : option (list jsstring) :=
  if negb (len out <? count) then Some out
  else
    match fuel with
    | O => None
    | S fuel' =>
        let q := nth (N.to_nat (rand_floor rnd k 7)) sampleQuotes [] in
        gen_quotes fuel' rnd count (S k) (push_parts count (split_space q) out)
    end.

(** english mode: [while (result.length < count) result.push(...pool)] *)
Fixpoint fill_from_pool (fuel : nat) (count : Z) (pool result : list jsstring)
  : option (list jsstring) :=
  if negb (len result <? count) then Some result
  else
    match fuel with
    | O => None
    | S fuel' => fill_from_pool fuel' count pool (result ++ pool)
    end.

(** [result.slice(0, count)] *)
Definition slice0 (count : Z) (l : list jsstring) : list jsstring :=
  if count <? 0 then take (Z.to_nat (len l + count)) l
  else take (Z.to_nat count) l.

Definition MODE_NUMBERS : jsstring := lit "numbers".
Definition MODE_QUOTES : jsstring := lit "quotes".
Definition MODE_ENGLISH : jsstring := lit "english".

(** [generateWords(count)] for an engine in mode [md] with pool [pool] *)
Definition generateWords (fuel : nat) (rnd : nat -> N) (md : jsstring)
  (pool : list jsstring) (count : Z) : option (list jsstring) :=
  if str_eqb md MODE_NUMBERS then
    Some (gen_numbers rnd (Z.to_nat count) 0 [])
  else if str_eqb md MODE_QUOTES then
    gen_quotes fuel rnd count 0 []
  else
    let pool' := shuffleArray rnd pool in
    match fill_from_pool fuel count pool' [] with
    | Some result => Some (slice0 count result)
    | None => None
    end.

(** ** Engine methods *)

(** Truthiness of a timestamp field: [null] and [0] are falsy. *)
Definition truthy (t : option Z) : bool :=
  match t with
  | Some v => negb (v =? 0)
  | None => false
  end.

(** The number a timestamp field denotes in arithmetic: [null] is [0]. *)
Definition num (t : option Z) : Z := default 0 t.

Definition emit (e : Event) (s : Engine) : Engine :=
  set_emitted (emitted s ++ [e]) s.

(** [this.words[this.currentWordIndex] || ''] *)
Definition getCurrentWord (s : Engine) : jsstring :=
  default [] (words s !! currentWordIndex s).

(** [str[i] || ''] *)
Definition char_at (str : jsstring) (i : nat) : jsstring :=
  match str !! i with
  | Some c => [c]
  | None => []
  end.

Definition word_chars (target typed : jsstring) : list CharState :=
  map (fun i =>
         let t := char_at target i in
         let u := char_at typed i in
         mkCharState t u (negb (str_eqb u []) && str_eqb u t))
      (seq 0 (Nat.max (length target) (length typed))).

Definition getCurrentWordState (s : Engine) : WordState :=
  let target := getCurrentWord s in
  let typed := currentInput s in
  let chars := word_chars target typed in
  mkWordState target typed chars (str_eqb typed target)
              (len (filter (fun c => cs_correct c = true) chars)).

(** [if (typeof this.onUpdateWordState === 'function')
      this.onUpdateWordState(this.getCurrentWordState())] *)
Definition notifyWordState (s : Engine) : Engine :=
  if onUpdateWordState s then emit (EvUpdateWordState (getCurrentWordState s)) s
  else s.

(** Timestamps are whole milliseconds; the floor of their difference over
    1000 is the integer quotient. *)
Definition getElapsedSeconds (now : Z) (s : Engine) : Z :=
  if negb (truthy (startedAt s)) then 0
  else if truthy (endedAt s) then (num (endedAt s) - num (startedAt s)) / 1000
  else (now - num (startedAt s)) / 1000.

Definition getWPM (now : Z) (s : Engine) : float64 :=
  let elapsed := getElapsedSeconds now s in
  if elapsed <=? 0 then fzero
  else
    let minutes := fdiv (of_Z elapsed) (of_Z 60) in
    or_zero (Math_round (fdiv (fdiv (of_Z (correctChars s)) (of_Z 5)) minutes)).

Definition getRawSpeed (now : Z) (s : Engine) : float64 :=
  let elapsed := getElapsedSeconds now s in
  if elapsed <=? 0 then fzero
  else
    let minutes := fdiv (of_Z elapsed) (of_Z 60) in
    or_zero (Math_round (fdiv (fdiv (of_Z (typedChars s)) (of_Z 5)) minutes)).

Definition getAccuracy (s : Engine) : float64 :=
  if typedChars s =? 0 then of_Z 100
  else
    or_zero (Math_round
      (fmul (fdiv (of_Z (correctChars s)) (of_Z (typedChars s))) (of_Z 100))).

(** [_addHistoryPoint(wpm)]: push, then shift once the length exceeds 120 *)
Definition _addHistoryPoint (wpm : float64) (s : Engine) : Engine :=
  let h := wpmHistory s ++ [Math_round wpm] in
  set_wpmHistory (if 120 <? len h then drop 1 h else h) s.

Definition _startHistoryInterval (s : Engine) : Engine :=
  set_historyInterval true s.

(** The callback of [_historyInterval], run by the timer while it is armed. *)
Definition historyIntervalFires (now : Z) (s : Engine) : Engine :=
  if historyInterval s then _addHistoryPoint (getWPM now s) s else s.

Definition start (now : Z) (s : Engine) : Engine :=
  if started s then s
  else
    let s := set_started true s in
    let s := set_startedAt (Some now) s in
    let s := set_endedAt None s in
    let s := _startHistoryInterval s in
    if onStart s then emit EvStart s else s.

Definition finish (now : Z) (s : Engine) : Engine :=
  if finished s then s
  else
    let s := set_finished true s in
    let s := set_endedAt (Some now) s in
    let s := set_started false s in
    let s := set_historyInterval false s in
    let s :=
      if 0 <? len (currentInput s) then
        set_wordHistory
          (wordHistory s ++
             [mkWordResult (words s !! currentWordIndex s) (currentInput s) 0 None 0])
          s
      else s in
    let wpm := getWPM now s in
    let accuracy := getAccuracy s in
    let raw := getRawSpeed now s in
    let s :=
      if fgtb wpm (b_wpm (best s)) then
        let s := set_best (mkBest wpm accuracy raw) s in
        emit (EvSaveBest (best s)) s
      else s in
    if onFinish s then emit (EvFinish wpm accuracy raw) s else s.

Definition tick (now : Z) (s : Engine) : Engine :=
  if negb (started s) || finished s then s
  else
    let s := set_lastTickAt (Some now) s in
    let elapsed := (now - num (startedAt s)) / 1000 in
    let s := set_timeLeft (Z.max 0 (timeLimit s - elapsed)) s in
    let s :=
      if onTick s then emit (EvTick (timeLeft s) elapsed (getWPM now s)) s
      else s in
    let s := _addHistoryPoint (getWPM now s) s in
    if timeLeft s <=? 0 then finish now s else s.

(** The loop of [processInput] that compares [typed] and [target]
    position by position. *)
Definition count_matches (typed target : jsstring) : Z :=
  fold_left
    (fun correct i =>
       if bool_decide (typed !! i = target !! i) then correct + 1 else correct)
    (seq 0 (Nat.min (length typed) (length target))) 0.

Definition space_credit (s : Engine) : Z :=
  if spaceCountsAsChar s then 1 else 0.

Definition processInput (now : Z) (value : jsstring) (s : Engine) : Engine :=
  if finished s then s
  else
    let s := if negb (started s) then start now s else s in
    if ends_with_space value then
      let typed := trim value in
      let target := getCurrentWord s in
      let typedIncrement := len typed + space_credit s in
      let s := set_typedChars (typedChars s + typedIncrement) s in
      let s :=
        if str_eqb typed target then
          let s := set_correctChars (correctChars s + (len target + space_credit s)) s in
          set_wordHistory
            (wordHistory s ++
               [mkWordResult (Some target) typed (len target) (Some true) 0]) s
        else
          let correct := count_matches typed target in
          let s := set_correctChars (correctChars s + correct) s in
          set_wordHistory
            (wordHistory s ++
               [mkWordResult (Some target) typed correct (Some false) 0]) s in
      let s := set_currentWordIndex (S (currentWordIndex s)) s in
      let s := set_currentInput [] s in
      notifyWordState s
    else
      let delta := len value - len (currentInput s) in
      let s := if 0 <? delta then set_typedChars (typedChars s + delta) s else s in
      let s := set_currentInput value s in
      notifyWordState s.

Definition KEY_BACKSPACE : jsstring := lit "Backspace".

Definition processKeystroke (now : Z) (ch : jsstring) (s : Engine) : Engine :=
  if finished s then s
  else
    let s := if negb (started s) then start now s else s in
    if str_eqb ch KEY_BACKSPACE then
      let s := set_currentInput (drop_last (currentInput s)) s in
      notifyWordState s
    else
      let s := set_currentInput (currentInput s ++ ch) s in
      let s := set_typedChars (typedChars s + 1) s in
      if str_eqb ch [SPACE] then processInput now (currentInput s) s
      else notifyWordState s.

(** [resetTest()]; [None] when [generateWords] does not return. *)
Definition resetTest (fuel : nat) (rnd : nat -> N) (now : Z) (s : Engine)
  : option Engine :=
  let s := set_historyInterval false s in
  match generateWords fuel rnd (mode s) (wordsPool s) (seedSize s) with
  | None => None
  | Some ws =>
      let s := set_words ws s in
      let s := set_currentWordIndex O s in
      let s := set_currentInput [] s in
      let s := set_startedAt None s in
      let s := set_endedAt None s in
      let s := set_started false s in
      let s := set_finished false s in
      let s := set_timeLeft (timeLimit s) s in
      let s := set_typedChars 0 s in
      let s := set_correctChars 0 s in
      let s := set_wordHistory [] s in
      let s := set_wpmHistory [] s in
      let s := set_lastTickAt (Some now) s in
      let s := set_wpmHistory (wpmHistory s ++ replicate 5 fzero) s in
      Some (notifyWordState s)
  end.

Definition setMode (fuel : nat) (rnd : nat -> N) (now : Z) (md : jsstring)
  (s : Engine) : option Engine :=
  resetTest fuel rnd now (set_mode md s).

Definition setTimeLimit (fuel : nat) (rnd : nat -> N) (now : Z) (sec : Z)
  (s : Engine) : option Engine :=
  let s := set_timeLimit sec s in
  let s := set_timeLeft sec s in
  resetTest fuel rnd now s.

(** ** Construction *)

Record Options := mkOptions {
  opt_timeLimit : option Z;
  opt_mode : option jsstring;
  opt_words : option (list jsstring);
  opt_seedSize : option Z;
  opt_localStorageKey : option jsstring
}.

(** [opts.x || d] for a number and for a string: [undefined], [0] and ['']
    are falsy; an array, even an empty one, is truthy. *)
Definition num_or (o : option Z) (d : Z) : Z :=
  match o with
  | Some v => if v =? 0 then d else v
  | None => d
  end.

Definition str_or (o : option jsstring) (d : jsstring) : jsstring :=
  match o with
  | Some [] | None => d
  | Some v => v
  end.

Definition zero_best : Best := mkBest fzero fzero fzero.

(** The fields as the constructor sets them before it calls [resetTest];
    [stored] is what [_loadBest()] finds in localStorage ([None]: nothing
    there, or nothing that parses). *)
Definition construct_fields (opts : Options) (stored : option Best) : Engine :=
  let tl := num_or (opt_timeLimit opts) 60 in
  {| timeLimit := tl;
     mode := str_or (opt_mode opts) MODE_ENGLISH;
     wordsPool := default DEFAULT_WORDS (opt_words opts);
     seedSize := num_or (opt_seedSize opts) 200;
     spaceCountsAsChar := true;
     words := [];
     currentWordIndex := O;
     currentInput := [];
     startedAt := None;
     endedAt := None;
     started := false;
     finished := false;
     timeLeft := tl;
     typedChars := 0;
     correctChars := 0;
     wordHistory := [];
     wpmHistory := [];
     tickIntervalMs := 1000;
     lastTickAt := None;
     onStart := false;
     onTick := false;
     onFinish := false;
     onUpdateWordState := false;
     localStorageKey := str_or (opt_localStorageKey opts) (lit "sebtype:best");
     best := default zero_best stored;
     historyInterval := false;
     emitted := [] |}.

(** [new TypingEngine(opts)] *)
Definition construct (fuel : nat) (rnd : nat -> N) (now : Z) (opts : Options)
  (stored : option Best) : option Engine :=
  resetTest fuel rnd now (construct_fields opts stored).

(** [Modes.setSeedSize(n)] of scripts/modes.js, on an integer [n]: the new
    [_seedSize]. *)
Definition Modes_setSeedSize (n : Z) : Z := clamp n 20 5000.

(** ** Sessions: what a caller can do with an engine *)

Inductive Op :=
| OpStart
| OpProcessInput (value : jsstring)
| OpProcessKeystroke (ch : jsstring)
| OpTick
| OpFinish
| OpResetTest
| OpSetMode (md : jsstring)
| OpSetTimeLimit (sec : Z)
| OpHistoryInterval                      (* the engine's own timer fires *)
| OpSetCallbacks (on_start on_tick on_finish on_update : bool).

(** What one call needs from outside the engine. *)
Record Env := mkEnv { env_now : Z; env_rnd : nat -> N; env_fuel : nat }.

Definition exec (e : Env) (op : Op) (s : Engine) : option Engine :=
  match op with
  | OpStart => Some (start (env_now e) s)
  | OpProcessInput v => Some (processInput (env_now e) v s)
  | OpProcessKeystroke ch => Some (processKeystroke (env_now e) ch s)
  | OpTick => Some (tick (env_now e) s)
  | OpFinish => Some (finish (env_now e) s)
  | OpResetTest => resetTest (env_fuel e) (env_rnd e) (env_now e) s
  | OpSetMode md => setMode (env_fuel e) (env_rnd e) (env_now e) md s
  | OpSetTimeLimit sec => setTimeLimit (env_fuel e) (env_rnd e) (env_now e) sec s
  | OpHistoryInterval => Some (historyIntervalFires (env_now e) s)
  | OpSetCallbacks a b c d =>
      Some (set_onUpdateWordState d (set_onFinish c (set_onTick b (set_onStart a s))))
  end.

(** The states an engine can be in: freshly constructed, or one completed
    call later. *)
Inductive reachable : Engine -> Prop :=
| reach_construct fuel rnd now opts stored s :
    construct fuel rnd now opts stored = Some s -> reachable s
| reach_exec e op s s' :
    reachable s -> exec e op s = Some s' -> reachable s'.

(** Running a list of calls, each with its own environment. *)
Fixpoint run (calls : list (Env * Op)) (s : Engine) : option Engine :=
  match calls with
  | [] => Some s
  | (e, op) :: rest =>
      match exec e op s with
      | Some s' => run rest s'
      | None => None
      end
  end.

(** ** Concrete sessions for the examples *)

Definition rnd0 : nat -> N := fun _ => 0%N.

Definition env0 : Env := mkEnv 1000 rnd0 3.

(** [new TypingEngine({ words: ['the'], seedSize: 3 })] *)
Definition opts_the : Options :=
  mkOptions None None (Some [lit "the"]) (Some 3) None.

Definition engine_the : Engine :=
  Eval vm_compute in
    default (construct_fields opts_the None) (construct 3 rnd0 1000 opts_the None).

(** Typing a word key by key: [processKeystroke] for each character. *)
Definition type_keys (now : Z) (w : jsstring) (s : Engine) : Engine :=
  fold_left (fun s c => processKeystroke now [c] s) w s.

(** Typing a word through the input field: [processInput] with each longer
    prefix of the buffer. *)
Fixpoint type_buffer (now : Z) (buf w : jsstring) (s : Engine) : Engine :=
  match w with
  | [] => s
  | c :: r => type_buffer now (buf ++ [c]) r (processInput now (buf ++ [c]) s)
  end.

(** [n] firings of the history timer. *)
Definition timer_fires (n : nat) : list (Env * Op) :=
  replicate n (env0, OpHistoryInterval).

(** The session "the", with [onFinish] registered, after typing "th" and
    calling [finish()]. *)
Definition engine_done : Engine :=
  Eval vm_compute in
    finish 3000
      (processInput 1000 (lit "th")
         (set_onFinish true engine_the)).

(** [new TypingEngine({ mode: 'numbers', words: [], seedSize: 3 })] *)
Definition opts_no_pool : Options :=
  mkOptions None (Some MODE_NUMBERS) (Some []) (Some 3) None.

Definition engine_no_pool : Engine :=
  Eval vm_compute in
    default (construct_fields opts_no_pool None)
            (construct 3 rnd0 1000 opts_no_pool None).

(** The session "the" in the middle of a run: one word committed, two
    characters of the next typed. *)
Definition engine_midrun : Engine :=
  Eval vm_compute in
    processInput 2500 (lit "th") (processInput 2000 (lit "the ") engine_the).

(** [new TypingEngine({ timeLimit: -5, seedSize: -3 })] *)
Definition opts_negative : Options :=
  mkOptions (Some (-5)) None None (Some (-3)) None.




(** ** Statements used by the properties *)

(** The positions the comparison loop of [processInput] counts. *)
Definition matching_positions (typed target : jsstring) : list nat :=
  filter (fun i => typed !! i = target !! i)
         (seq 0 (Nat.min (length typed) (length target))).

(** What every reachable engine state satisfies. *)
Record Inv (s : Engine) : Prop := mkInv {
  inv_correct_le_typed : correctChars s <= typedChars s;
  inv_correct_nonneg : 0 <= correctChars s;
  inv_space_counts : spaceCountsAsChar s = true;
  inv_history_bound : (length (wpmHistory s) <= 120)%nat
}.

(** The state in which [processInput] and [processKeystroke] do their work:
    [if (!this.started) this.start()]. *)
Definition ensure_started (now : Z) (s : Engine) : Engine :=
  if negb (started s) then start now s else s.

(** The entry [processInput] pushes on [wordHistory] when it commits. *)
Definition commit_entry (typed target : jsstring) : WordResult :=
  if str_eqb typed target
  then mkWordResult (Some target) typed (len target) (Some true) 0
  else mkWordResult (Some target) typed (count_matches typed target) (Some false) 0.

(** The credit that commit adds to [correctChars]. *)
Definition commit_credit (credit : Z) (typed target : jsstring) : Z :=
  if str_eqb typed target then len target + credit
  else count_matches typed target.

(** When [generateWords] returns: always in numbers and quotes mode; in any
    other mode (english) unless the pool is empty and words are wanted. *)
Definition generation_returns (md : jsstring) (pool : list jsstring) (count : Z)
  : Prop :=
  md = MODE_NUMBERS \/ md = MODE_QUOTES \/ pool <> [] \/ count <= 0.

(** Fuel that lets [generateWords(count)] finish whenever it can. *)
Definition fuel_for (count : Z) : nat := Z.to_nat count.

(** The state [resetTest] leaves: idle, at the first word, nothing typed,
    nothing counted. *)
Definition fresh (s : Engine) : Prop :=
  started s = false /\ finished s = false /\
  startedAt s = None /\ endedAt s = None /\
  currentWordIndex s = O /\ currentInput s = [] /\
  typedChars s = 0 /\ correctChars s = 0 /\
  wordHistory s = [] /\ historyInterval s = false.

(** Numbers that are neither NaN nor negative (nor the negative zero). *)
Definition nonneg_num (x : float64) : Prop :=
  match x with
  | S754_zero false | S754_infinity false | S754_finite false _ _ => True
  | _ => False
  end.

(** Positive finite numbers. *)
Definition finite_pos (x : float64) : Prop :=
  match x with
  | S754_finite false _ _ => True
  | _ => False
  end.

(** ** Further sessions and statements *)

(** The words of the sample quotes. *)
Definition quote_words : list jsstring := concat (map split_space sampleQuotes).

(** The credit an entry of [wordHistory] stands for: its [correct] count,
    and one more, for the space, when the word was perfect. *)
Definition entry_credit (r : WordResult) : Z :=
  wr_correct r + (match wr_perfect r with Some true => 1 | _ => 0 end).

Definition history_credit (h : list WordResult) : Z :=
  foldr (fun r acc => entry_credit r + acc) 0 h.

(** What every reachable state satisfies about the lifecycle flags, the
    timestamps and the word history. *)
Record Life (s : Engine) : Prop := mkLife {
  life_timer : historyInterval s = started s;
  life_started : started s = true -> startedAt s <> None;
  life_ended : finished s = false -> endedAt s = None;
  life_idle : started s = false -> finished s = false -> fresh s;
  life_history :
    length (wordHistory s) = currentWordIndex s \/
    (finished s = true /\ length (wordHistory s) = S (currentWordIndex s));
  life_credit : correctChars s = history_credit (wordHistory s);
  life_space : spaceCountsAsChar s = true
}.

(** Three words committed on the session "the", the last one mistyped:
    the words are used up. *)
Definition run_three : list (Env * Op) :=
  [(mkEnv 1000 rnd0 0, OpProcessInput (lit "the "));
   (mkEnv 2000 rnd0 0, OpProcessInput (lit "the "));
   (mkEnv 3000 rnd0 0, OpProcessInput (lit "teh "))].

Definition engine_three : Engine :=
  Eval vm_compute in default engine_the (run run_three engine_the).


(** From [s] to [s'] no counter fell, the cursor did not move back and
    [wordHistory] was only appended to. *)
Definition grows (s s' : Engine) : Prop :=
  typedChars s <= typedChars s' /\
  correctChars s <= correctChars s' /\
  (currentWordIndex s <= currentWordIndex s')%nat /\
  wordHistory s `prefix_of` wordHistory s'.

(** The calls that discard the run. *)
Definition resets (op : Op) : bool :=
  match op with
  | OpResetTest | OpSetMode _ | OpSetTimeLimit _ => true
  | _ => false
  end.

(** What [resetTest] and the constructor set up for a run. *)
Definition setup (s : Engine) : list jsstring * list jsstring * Z * jsstring * Z :=
  (words s, wordsPool s, timeLimit s, mode s, seedSize s).

(** The calls that neither reset the session nor call [start()] directly. *)
Definition leaves_result (op : Op) : bool :=
  match op with
  | OpStart | OpResetTest | OpSetMode _ | OpSetTimeLimit _ => false
  | _ => true
  end.

(** The fields the final figures are read from. *)
Definition result_fields (s : Engine)
  : bool * bool * option Z * option Z * Z * Z * list WordResult * list float64 :=
  (finished s, historyInterval s, startedAt s, endedAt s, typedChars s,
   correctChars s, wordHistory s, wpmHistory s).

(** What [resetTest] leaves beside [fresh]: the five seeded samples and
    the full time. *)
Definition idle_seed (s : Engine) : Prop :=
  wpmHistory s = replicate 5 fzero /\ timeLeft s = timeLimit s.




(** * Properties *)

(** ** Strings and scoring helpers *)

Example trim_the : trim (lit " the  ") = lit "the".
Proof. reflexivity. Qed.

Example split_quote :
  split_space (lit "To be or") = [lit "To"; lit "be"; lit "or"].
Proof. reflexivity. Qed.

Example string_of_4711 : String_of_N 4711 = lit "4711".
Proof. reflexivity. Qed.

Lemma str_eqb_eq (a b : jsstring) : str_eqb a b = true <-> a = b.
Proof. unfold str_eqb. apply bool_decide_eq_true. Qed.

Lemma str_eqb_neq (a b : jsstring) : str_eqb a b = false <-> a <> b.
Proof. unfold str_eqb. apply bool_decide_eq_false. Qed.

Lemma len_nonneg {A} (l : list A) : 0 <= len l.
Proof. unfold len. lia. Qed.

Lemma len_app {A} (l k : list A) : len (l ++ k) = len l + len k.
Proof. unfold len. rewrite length_app. lia. Qed.

Lemma count_loop_filter (typed target : jsstring) (idx : list nat) (acc : Z) :
  fold_left
    (fun correct i =>
       if bool_decide (typed !! i = target !! i) then correct + 1 else correct)
    idx acc
  = acc + len (filter (fun i => typed !! i = target !! i) idx).
Proof.
  revert acc. induction idx as [|i idx IH]; intros acc; simpl.
  - unfold len. simpl. lia.
  - rewrite filter_cons.
    destruct (decide (typed !! i = target !! i)) as [E|E].
    + rewrite bool_decide_eq_true_2 by exact E. rewrite IH.
      unfold len. simpl. lia.
    + rewrite bool_decide_eq_false_2 by exact E. apply IH.
Qed.

Lemma count_matches_positions (typed target : jsstring) :
  count_matches typed target = len (matching_positions typed target).
Proof.
  unfold count_matches, matching_positions.
  rewrite count_loop_filter. apply Z.add_0_l.
Qed.

Lemma count_matches_bounds (typed target : jsstring) :
  0 <= count_matches typed target <= len typed.
Proof.
  rewrite count_matches_positions. split; [apply len_nonneg|].
  unfold matching_positions, len.
  pose proof (length_filter (fun i => typed !! i = target !! i)
                (seq 0 (Nat.min (length typed) (length target)))) as H.
  rewrite length_seq in H. lia.
Qed.

Example count_matches_teh : count_matches (lit "teh") (lit "the") = 1.
Proof. reflexivity. Qed.

(** ** The invariant of reachable states *)

Ltac break_if :=
  match goal with
  | |- context [if ?c then _ else _] => destruct c eqn:?
  end.

Lemma Inv_same (s s' : Engine) :
  correctChars s' = correctChars s ->
  typedChars s' = typedChars s ->
  spaceCountsAsChar s' = spaceCountsAsChar s ->
  wpmHistory s' = wpmHistory s ->
  Inv s -> Inv s'.
Proof.
  intros Hc Ht Hs Hh [H1 H2 H3 H4].
  constructor; rewrite ?Hc, ?Ht, ?Hs, ?Hh; assumption.
Qed.

Lemma Inv_notifyWordState (s : Engine) : Inv s -> Inv (notifyWordState s).
Proof.
  unfold notifyWordState. destruct (onUpdateWordState s); [|auto].
  apply Inv_same; reflexivity.
Qed.

Lemma Inv_start (now : Z) (s : Engine) : Inv s -> Inv (start now s).
Proof.
  unfold start, _startHistoryInterval. destruct (started s); [auto|].
  cbn. destruct (onStart s); apply Inv_same; reflexivity.
Qed.

Lemma addHistoryPoint_length (w : float64) (s : Engine) :
  (length (wpmHistory s) <= 120)%nat ->
  (length (wpmHistory (_addHistoryPoint w s)) <= 120)%nat.
Proof.
  intros H. unfold _addHistoryPoint. cbn.
  destruct (120 <? len (wpmHistory s ++ [Math_round w])) eqn:E.
  - rewrite length_drop, length_app. simpl. lia.
  - apply Z.ltb_ge in E. unfold len in E. lia.
Qed.

Lemma Inv_addHistoryPoint (w : float64) (s : Engine) :
  Inv s -> Inv (_addHistoryPoint w s).
Proof.
  intros [H1 H2 H3 H4]. constructor; try assumption.
  apply addHistoryPoint_length. assumption.
Qed.

Lemma Inv_finish (now : Z) (s : Engine) : Inv s -> Inv (finish now s).
Proof.
  unfold finish. destruct (finished s); [auto|].
  cbn. repeat (break_if; cbn); apply Inv_same; reflexivity.
Qed.

Lemma Inv_tick (now : Z) (s : Engine) : Inv s -> Inv (tick now s).
Proof.
  intros H. unfold tick. destruct (negb (started s) || finished s); [auto|].
  match goal with
  | |- Inv (if _ then finish now ?t else ?t) =>
      assert (Inv t) as Ht; [|destruct (_ <=? 0); [apply Inv_finish|]; exact Ht]
  end.
  apply Inv_addHistoryPoint.
  cbn. destruct (onTick s); revert H; apply Inv_same; reflexivity.
Qed.

(** ** [start] and the commit of a word *)

(** [start] touches the lifecycle fields only. *)
Lemma start_keeps (now : Z) (s : Engine) :
  let s' := start now s in
  typedChars s' = typedChars s /\ correctChars s' = correctChars s /\
  wordHistory s' = wordHistory s /\ currentWordIndex s' = currentWordIndex s /\
  currentInput s' = currentInput s /\ words s' = words s /\
  spaceCountsAsChar s' = spaceCountsAsChar s /\ wpmHistory s' = wpmHistory s /\
  finished s' = finished s /\ onUpdateWordState s' = onUpdateWordState s /\
  started s' = true.
Proof.
  unfold start, _startHistoryInterval.
  destruct (started s) eqn:E; [tauto|].
  cbn. destruct (onStart s); cbn; tauto.
Qed.

Lemma ensure_started_keeps (now : Z) (s : Engine) :
  let s' := ensure_started now s in
  typedChars s' = typedChars s /\ correctChars s' = correctChars s /\
  wordHistory s' = wordHistory s /\ currentWordIndex s' = currentWordIndex s /\
  currentInput s' = currentInput s /\ words s' = words s /\
  spaceCountsAsChar s' = spaceCountsAsChar s /\ wpmHistory s' = wpmHistory s /\
  finished s' = finished s /\ onUpdateWordState s' = onUpdateWordState s /\
  started s' = true.
Proof.
  unfold ensure_started. destruct (started s) eqn:E; cbn.
  - tauto.
  - apply start_keeps.
Qed.

Lemma notifyWordState_keeps (s : Engine) :
  let s' := notifyWordState s in
  typedChars s' = typedChars s /\ correctChars s' = correctChars s /\
  wordHistory s' = wordHistory s /\ currentWordIndex s' = currentWordIndex s /\
  currentInput s' = currentInput s /\ words s' = words s /\
  spaceCountsAsChar s' = spaceCountsAsChar s /\ wpmHistory s' = wpmHistory s /\
  finished s' = finished s /\ started s' = started s.
Proof.
  unfold notifyWordState. destruct (onUpdateWordState s); cbn; tauto.
Qed.

Lemma processInput_commit (now : Z) (value : jsstring) (s : Engine) :
  finished s = false ->
  ends_with_space value = true ->
  let typed := trim value in
  let target := getCurrentWord s in
  let s' := processInput now value s in
  typedChars s' = typedChars s + (len typed + space_credit s) /\
  correctChars s' = correctChars s + commit_credit (space_credit s) typed target /\
  wordHistory s' = wordHistory s ++ [commit_entry typed target] /\
  currentWordIndex s' = S (currentWordIndex s) /\
  currentInput s' = [] /\
  words s' = words s /\
  spaceCountsAsChar s' = spaceCountsAsChar s /\
  wpmHistory s' = wpmHistory s /\
  finished s' = false /\ started s' = true.
Proof.
  intros Hf He. cbn zeta. unfold processInput. rewrite Hf, He.
  fold (ensure_started now s).
  destruct (ensure_started_keeps now s)
    as (Ht & Hc & Hw & Hi & Hin & Hws & Hsp & Hh & Hfin & Hu & Hst).
  set (s1 := ensure_started now s) in *.
  assert (getCurrentWord s1 = getCurrentWord s) as Hg
    by (unfold getCurrentWord; rewrite Hws, Hi; reflexivity).
  assert (space_credit s1 = space_credit s) as Hsc
    by (unfold space_credit; rewrite Hsp; reflexivity).
  rewrite Hg. unfold commit_credit, commit_entry.
  match goal with
  | |- context [notifyWordState ?t] =>
      destruct (notifyWordState_keeps t)
        as (Kt & Kc & Kw & Ki & Kin & Kws & Ksp & Kh & Kfin & Kst)
  end.
  rewrite Kt, Kc, Kw, Ki, Kin, Kws, Ksp, Kh, Kfin, Kst.
  destruct (str_eqb (trim value) (getCurrentWord s)); cbn;
    unfold space_credit in *; cbn; rewrite ?Hsp, ?Ht, ?Hc, ?Hw, ?Hi, ?Hws, ?Hh, ?Hfin, ?Hst, ?Hf;
    repeat split; reflexivity.
Qed.

Lemma processInput_buffer (now : Z) (value : jsstring) (s : Engine) :
  finished s = false ->
  ends_with_space value = false ->
  let s' := processInput now value s in
  typedChars s' = typedChars s + Z.max 0 (len value - len (currentInput s)) /\
  correctChars s' = correctChars s /\
  wordHistory s' = wordHistory s /\
  currentWordIndex s' = currentWordIndex s /\
  currentInput s' = value /\
  words s' = words s /\
  spaceCountsAsChar s' = spaceCountsAsChar s /\
  wpmHistory s' = wpmHistory s /\
  finished s' = false /\ started s' = true.
Proof.
  intros Hf He. cbn zeta. unfold processInput. rewrite Hf, He.
  fold (ensure_started now s).
  destruct (ensure_started_keeps now s)
    as (Ht & Hc & Hw & Hi & Hin & Hws & Hsp & Hh & Hfin & Hu & Hst).
  set (s1 := ensure_started now s) in *.
  match goal with
  | |- context [notifyWordState ?t] =>
      destruct (notifyWordState_keeps t)
        as (Kt & Kc & Kw & Ki & Kin & Kws & Ksp & Kh & Kfin & Kst)
  end.
  rewrite Kt, Kc, Kw, Ki, Kin, Kws, Ksp, Kh, Kfin, Kst. rewrite Hin.
  destruct (0 <? len value - len (currentInput s)) eqn:E; cbn;
    rewrite ?Ht, ?Hc, ?Hw, ?Hi, ?Hws, ?Hsp, ?Hh, ?Hfin, ?Hst, ?Hf;
    repeat split; try reflexivity.
  - apply Z.ltb_lt in E. lia.
  - apply Z.ltb_ge in E. lia.
Qed.

Lemma commit_credit_bounds (credit : Z) (typed target : jsstring) :
  0 <= credit ->
  0 <= commit_credit credit typed target <= len typed + credit.
Proof.
  intros Hc. unfold commit_credit.
  destruct (str_eqb typed target) eqn:E.
  - apply str_eqb_eq in E. subst. pose proof (len_nonneg target). lia.
  - pose proof (count_matches_bounds typed target). lia.
Qed.

Lemma space_credit_nonneg (s : Engine) : 0 <= space_credit s.
Proof. unfold space_credit. destruct (spaceCountsAsChar s); lia. Qed.

Lemma Inv_processInput (now : Z) (value : jsstring) (s : Engine) :
  Inv s -> Inv (processInput now value s).
Proof.
  intros [H1 H2 H3 H4].
  destruct (finished s) eqn:Hf.
  { unfold processInput. rewrite Hf. constructor; assumption. }
  destruct (ends_with_space value) eqn:He.
  - destruct (processInput_commit now value s Hf He)
      as (Kt & Kc & _ & _ & _ & _ & Ksp & Kh & _).
    pose proof (commit_credit_bounds (space_credit s) (trim value)
                  (getCurrentWord s) (space_credit_nonneg s)).
    constructor; rewrite ?Kt, ?Kc, ?Ksp, ?Kh; try assumption; lia.
  - destruct (processInput_buffer now value s Hf He)
      as (Kt & Kc & _ & _ & _ & _ & Ksp & Kh & _).
    constructor; rewrite ?Kt, ?Kc, ?Ksp, ?Kh; try assumption; lia.
Qed.

Lemma Inv_processKeystroke (now : Z) (ch : jsstring) (s : Engine) :
  Inv s -> Inv (processKeystroke now ch s).
Proof.
  intros H. unfold processKeystroke.
  destruct (finished s); [assumption|].
  fold (ensure_started now s).
  assert (Inv (ensure_started now s)) as H1.
  { unfold ensure_started. destruct (negb (started s)); [apply Inv_start|]; assumption. }
  set (s1 := ensure_started now s) in *.
  destruct (str_eqb ch KEY_BACKSPACE).
  - apply Inv_notifyWordState. revert H1. apply Inv_same; reflexivity.
  - assert (Inv (set_typedChars (typedChars (set_currentInput (currentInput s1 ++ ch) s1) + 1)
                   (set_currentInput (currentInput s1 ++ ch) s1))) as H2.
    { destruct H1 as [A B C D]. constructor; cbn; try assumption; lia. }
    destruct (str_eqb ch [SPACE]).
    + apply Inv_processInput. exact H2.
    + apply Inv_notifyWordState. exact H2.
Qed.

Lemma Inv_historyIntervalFires (now : Z) (s : Engine) :
  Inv s -> Inv (historyIntervalFires now s).
Proof.
  intros H. unfold historyIntervalFires.
  destruct (historyInterval s); [apply Inv_addHistoryPoint|]; assumption.
Qed.

Lemma resetTest_fields (fuel : nat) (rnd : nat -> N) (now : Z) (s s' : Engine) :
  resetTest fuel rnd now s = Some s' ->
  generateWords fuel rnd (mode s) (wordsPool s) (seedSize s) = Some (words s') /\
  currentWordIndex s' = O /\ currentInput s' = [] /\
  startedAt s' = None /\ endedAt s' = None /\
  started s' = false /\ finished s' = false /\
  timeLeft s' = timeLimit s /\
  typedChars s' = 0 /\ correctChars s' = 0 /\
  wordHistory s' = [] /\ wpmHistory s' = replicate 5 fzero /\
  historyInterval s' = false /\
  timeLimit s' = timeLimit s /\ mode s' = mode s /\
  wordsPool s' = wordsPool s /\ seedSize s' = seedSize s /\
  spaceCountsAsChar s' = spaceCountsAsChar s.
Proof.
  unfold resetTest. cbn.
  destruct (generateWords fuel rnd (mode s) (wordsPool s) (seedSize s)) as [ws|];
    [|discriminate].
  intros [= <-]. unfold notifyWordState. cbn.
  destruct (onUpdateWordState s); cbn; repeat split; reflexivity.
Qed.

Lemma Inv_resetTest (fuel : nat) (rnd : nat -> N) (now : Z) (s s' : Engine) :
  spaceCountsAsChar s = true -> resetTest fuel rnd now s = Some s' -> Inv s'.
Proof.
  intros Hs H. apply resetTest_fields in H.
  destruct H as (_ & _ & _ & _ & _ & _ & _ & _ & Ht & Hc & _ & Hh & _ & _ & _ & _ & _ & Hsp).
  constructor; rewrite ?Ht, ?Hc, ?Hh, ?Hsp; simpl; try assumption; lia.
Qed.

Lemma Inv_exec (e : Env) (op : Op) (s s' : Engine) :
  Inv s -> exec e op s = Some s' -> Inv s'.
Proof.
  intros H. destruct op; cbn; try (intros [= <-]).
  - apply Inv_start; assumption.
  - apply Inv_processInput; assumption.
  - apply Inv_processKeystroke; assumption.
  - apply Inv_tick; assumption.
  - apply Inv_finish; assumption.
  - apply Inv_resetTest. apply H.
  - unfold setMode. apply Inv_resetTest. apply H.
  - unfold setTimeLimit. apply Inv_resetTest. apply H.
  - apply Inv_historyIntervalFires; assumption.
  - revert H. apply Inv_same; reflexivity.
Qed.

Lemma reachable_Inv (s : Engine) : reachable s -> Inv s.
Proof.
  induction 1 as [fuel rnd now opts stored s H | e op s s' _ IH H].
  - unfold construct in H. eapply Inv_resetTest; [|exact H]. reflexivity.
  - eapply Inv_exec; eassumption.
Qed.

(** ** Word generation: termination and length *)

Lemma swap_length (a : list jsstring) (i j : nat) : length (swap a i j) = length a.
Proof.
  unfold swap. destruct (a !! i), (a !! j); try reflexivity.
  rewrite !length_insert. reflexivity.
Qed.

Lemma shuffle_loop_length (rnd : nat -> N) (i k : nat) (a : list jsstring) :
  length (shuffle_loop rnd i k a) = length a.
Proof.
  revert k a. induction i as [|i IH]; intros k a; simpl; [reflexivity|].
  rewrite IH. apply swap_length.
Qed.

Lemma shuffleArray_length (rnd : nat -> N) (arr : list jsstring) :
  length (shuffleArray rnd arr) = length arr.
Proof. apply shuffle_loop_length. Qed.

Lemma gen_numbers_length (rnd : nat -> N) (n k : nat) (out : list jsstring) :
  length (gen_numbers rnd n k out) = (length out + n)%nat.
Proof.
  revert k out. induction n as [|n IH]; intros k out; simpl; [lia|].
  rewrite IH, length_app. simpl. lia.
Qed.

Lemma split_on_nonempty (sep : N) (cur s : jsstring) : split_on sep cur s <> [].
Proof.
  revert cur. induction s as [|c r IH]; intros cur; simpl; [discriminate|].
  destruct (c =? sep)%N; [discriminate|apply IH].
Qed.

(** The inner loop stops at [count] and, below it, takes at least one part. *)
Lemma push_parts_length (count : Z) (parts out : list jsstring) :
  len out <= count ->
  len (push_parts count parts out) <= count /\
  len out <= len (push_parts count parts out) /\
  (parts <> [] -> len out < count -> len out < len (push_parts count parts out)).
Proof.
  revert out. induction parts as [|p ps IH]; intros out Hle; simpl.
  - repeat split; try lia. intros H; contradiction.
  - destruct (len out <? count) eqn:E.
    + apply Z.ltb_lt in E.
      assert (len (out ++ [p]) = len out + 1) as Hl
        by (rewrite len_app; reflexivity).
      destruct (IH (out ++ [p])) as (A & B & _); [lia|].
      repeat split; try lia.
    + apply Z.ltb_ge in E. repeat split; try lia.
Qed.

Lemma gen_quotes_total (rnd : nat -> N) (count : Z) (fuel k : nat)
  (out : list jsstring) :
  len out <= count ->
  (Z.to_nat (count - len out) <= fuel)%nat ->
  exists ws, gen_quotes fuel rnd count k out = Some ws /\ len ws = count.
Proof.
  revert k out.
  induction fuel as [|fuel IH]; intros k out Hle Hf; cbn [gen_quotes].
  - assert (len out = count) as E by lia.
    rewrite E, Z.ltb_irrefl. simpl. eauto.
  - destruct (len out <? count) eqn:E; cbn [negb].
    + apply Z.ltb_lt in E.
      set (parts := split_space (nth (N.to_nat (rand_floor rnd k 7)) sampleQuotes [])).
      destruct (push_parts_length count parts out Hle) as (A & B & C).
      assert (parts <> []) as Hp by apply split_on_nonempty.
      specialize (C Hp E).
      apply IH; [exact A|lia].
    + apply Z.ltb_ge in E. exists out. split; [reflexivity|lia].
Qed.

Lemma fill_from_pool_total (count : Z) (pool : list jsstring) (fuel : nat)
  (result : list jsstring) :
  pool <> [] ->
  (Z.to_nat (count - len result) <= fuel)%nat ->
  exists r, fill_from_pool fuel count pool result = Some r /\ count <= len r.
Proof.
  intros Hp. revert result. induction fuel as [|fuel IH]; intros result Hf; simpl.
  - destruct (len result <? count) eqn:E; simpl.
    + apply Z.ltb_lt in E. lia.
    + apply Z.ltb_ge in E. eauto.
  - destruct (len result <? count) eqn:E; simpl.
    + apply Z.ltb_lt in E. apply IH. rewrite len_app.
      assert (0 < len pool).
      { destruct pool; [contradiction|]. unfold len. simpl. lia. }
      lia.
    + apply Z.ltb_ge in E. eauto.
Qed.

(** With an empty pool the loop makes no progress: it never returns. *)
Lemma fill_from_pool_empty (count : Z) (fuel : nat) (result : list jsstring) :
  len result < count -> fill_from_pool fuel count [] result = None.
Proof.
  intros H. induction fuel as [|fuel IH]; simpl.
  - apply Z.ltb_lt in H. rewrite H. reflexivity.
  - rewrite app_nil_r. pose proof H as H'. apply Z.ltb_lt in H'. rewrite H'. simpl.
    exact IH.
Qed.

Lemma slice0_length (count : Z) (l : list jsstring) :
  0 <= count <= len l -> len (slice0 count l) = count.
Proof.
  intros H. unfold slice0. destruct (count <? 0) eqn:E.
  - apply Z.ltb_lt in E. lia.
  - unfold len in *. rewrite length_take. lia.
Qed.

Lemma generateWords_total (fuel : nat) (rnd : nat -> N) (md : jsstring)
  (pool : list jsstring) (count : Z) :
  generation_returns md pool count ->
  (Z.to_nat count <= fuel)%nat ->
  exists ws, generateWords fuel rnd md pool count = Some ws /\
             len ws = Z.max 0 count.
Proof.
  intros Hg Hf. unfold generateWords.
  destruct (str_eqb md MODE_NUMBERS) eqn:E1.
  { eexists. split; [reflexivity|]. unfold len.
    rewrite gen_numbers_length. simpl. lia. }
  destruct (str_eqb md MODE_QUOTES) eqn:E2.
  { destruct (Z.le_gt_cases count 0) as [Hc|Hc].
    - exists []. split; [|unfold len; simpl; lia].
      destruct fuel; simpl; replace (len [] <? count) with false; try reflexivity;
        symmetry; apply Z.ltb_ge; unfold len; simpl; lia.
    - destruct (gen_quotes_total rnd count fuel 0 []) as (ws & H1 & H2).
      + unfold len. simpl. lia.
      + unfold len. simpl. lia.
      + exists ws. split; [exact H1|lia]. }
  apply str_eqb_neq in E1, E2.
  destruct (Z.le_gt_cases count 0) as [Hc|Hc].
  - assert (fill_from_pool fuel count (shuffleArray rnd pool) [] = Some []) as ->.
    { destruct fuel; simpl; replace (len [] <? count) with false; try reflexivity;
        symmetry; apply Z.ltb_ge; unfold len; simpl; lia. }
    eexists. split; [reflexivity|].
    unfold slice0. destruct (count <? 0); rewrite take_nil; unfold len; simpl; lia.
  - assert (pool <> []) as Hp.
    { destruct Hg as [H|[H|[H|H]]]; try contradiction; try lia. exact H. }
    destruct (fill_from_pool_total count (shuffleArray rnd pool) fuel []) as (r & H1 & H2).
    + intros E. apply Hp. apply length_zero_iff_nil.
      rewrite <- (shuffleArray_length rnd pool), E. reflexivity.
    + unfold len. simpl. lia.
    + rewrite H1. eexists. split; [reflexivity|].
      rewrite slice0_length; lia.
Qed.

Lemma generateWords_diverges (fuel : nat) (rnd : nat -> N) (md : jsstring)
  (count : Z) :
  md <> MODE_NUMBERS -> md <> MODE_QUOTES -> 1 <= count ->
  generateWords fuel rnd md [] count = None.
Proof.
  intros H1 H2 Hc. unfold generateWords.
  apply str_eqb_neq in H1, H2. rewrite H1, H2.
  unfold shuffleArray. simpl.
  rewrite fill_from_pool_empty; [reflexivity|]. unfold len. simpl. lia.
Qed.

(** ** Concrete sessions *)

Lemma construct_the : construct 3 rnd0 1000 opts_the None = Some engine_the.
Proof. reflexivity. Qed.

Example engine_the_words : words engine_the = [lit "the"; lit "the"; lit "the"].
Proof. reflexivity. Qed.

Lemma run_reachable (calls : list (Env * Op)) (s s' : Engine) :
  reachable s -> run calls s = Some s' -> reachable s'.
Proof.
  revert s. induction calls as [|[e op] rest IH]; intros s Hr; simpl.
  - intros [= <-]. exact Hr.
  - destruct (exec e op s) as [s1|] eqn:E; [|discriminate].
    apply IH. eapply reach_exec; eassumption.
Qed.

(** ** Committing a word *)

Lemma trim_start_length (l : jsstring) : (length (trim_start l) <= length l)%nat.
Proof.
  induction l as [|b r IH]; simpl; [lia|].
  destruct (is_js_space b); simpl; lia.
Qed.

Lemma trim_start_full_length (l : jsstring) :
  length (trim_start l) = length l -> trim_start l = l.
Proof.
  destruct l as [|b r]; [reflexivity|]. simpl.
  destruct (is_js_space b); [|reflexivity].
  pose proof (trim_start_length r) as L. intros E. simpl in E. lia.
Qed.

Lemma trim_fixed_start (w : jsstring) : trim w = w -> trim_start w = w.
Proof.
  intros H. apply trim_start_full_length.
  apply (f_equal length) in H. unfold trim, trim_end in H.
  rewrite length_rev in H.
  pose proof (trim_start_length (rev (trim_start w))) as L.
  rewrite length_rev in L. pose proof (trim_start_length w). lia.
Qed.

Lemma trim_start_fixed_app (w : jsstring) (c : N) :
  w <> [] -> trim_start w = w -> trim_start (w ++ [c]) = w ++ [c].
Proof.
  destruct w as [|a r]; [contradiction|]. intros _. simpl.
  destruct (is_js_space a); [|reflexivity].
  pose proof (trim_start_length r) as L. intros E.
  apply (f_equal length) in E. simpl in E. lia.
Qed.

(** Where the text before the separator has no white space at either end,
    [trim] removes the separator and nothing else. *)
Lemma trim_separator (w : jsstring) : trim w = w -> trim (w ++ [SPACE]) = w.
Proof.
  intros H. destruct (decide (w = [])) as [->|Hne]; [reflexivity|].
  pose proof (trim_fixed_start w H) as Hs.
  unfold trim. rewrite (trim_start_fixed_app w SPACE Hne Hs).
  unfold trim_end. rewrite rev_app_distr. simpl.
  unfold trim, trim_end in H. rewrite Hs in H. exact H.
Qed.

Lemma ends_with_space_app (w : jsstring) : ends_with_space (w ++ [SPACE]) = true.
Proof. unfold ends_with_space. rewrite last_snoc. reflexivity. Qed.

(** C1: for every session that is not finished and every input ending in
    the separator, [processInput] commits the word: with [typed] the
    trimmed value, [typedChars] grows by [typed.length + 1]; on an exact
    match [correctChars] grows by [target.length + 1] and a perfect entry is
    pushed on [wordHistory], otherwise it grows by the number of positions
    below both lengths where the two strings agree and a non-perfect entry
    with that count is pushed; [currentWordIndex] advances by one and
    [currentInput] is cleared.  [typed] is the value without its separator
    whenever the rest has no white space at either end.  With target "the",
    the input "the " adds 4 to both counters. *)
Theorem processInput_commits_word (now : Z) (value : jsstring) (s : Engine) :
  reachable s ->
  finished s = false ->
  ends_with_space value = true ->
  let typed := trim value in
  let target := getCurrentWord s in
  let s' := processInput now value s in
  typedChars s' = typedChars s + (len typed + 1) /\
  (typed = target ->
     correctChars s' = correctChars s + (len target + 1) /\
     wordHistory s' =
       wordHistory s ++ [mkWordResult (Some target) typed (len target) (Some true) 0]) /\
  (typed <> target ->
     correctChars s' = correctChars s + len (matching_positions typed target) /\
     wordHistory s' =
       wordHistory s ++
         [mkWordResult (Some target) typed (len (matching_positions typed target))
                       (Some false) 0]) /\
  currentWordIndex s' = S (currentWordIndex s) /\
  currentInput s' = [] /\
  (forall w, value = w ++ [SPACE] -> trim w = w -> typed = w) /\
  (target = lit "the" -> value = lit "the " ->
     typedChars s' = typedChars s + 4 /\ correctChars s' = correctChars s + 4).
Proof.
  intros Hr Hf He typed target s'.
  destruct (processInput_commit now value s Hf He)
    as (Kt & Kc & Kw & Ki & Kin & _).
  fold typed target s' in Kt, Kc, Kw, Ki, Kin.
  assert (space_credit s = 1) as Hsc.
  { unfold space_credit. rewrite (inv_space_counts s (reachable_Inv s Hr)). reflexivity. }
  rewrite Hsc in Kt, Kc.
  unfold commit_credit in Kc. unfold commit_entry in Kw.
  split; [exact Kt|].
  split.
  { intros E. apply str_eqb_eq in E. rewrite E in Kc, Kw. split; assumption. }
  split.
  { intros E. apply str_eqb_neq in E. rewrite E in Kc, Kw.
    rewrite count_matches_positions in Kc, Kw. split; assumption. }
  split; [exact Ki|]. split; [exact Kin|].
  split.
  { intros w -> Hw. apply trim_separator. exact Hw. }
  intros Et Ev.
  assert (typed = lit "the") as Ety by (unfold typed; rewrite Ev; reflexivity).
  rewrite Kt, Kc, Ety, Et. split; reflexivity.
Qed.

(** At the session with words "the", "the", "the". *)
Lemma processInput_commits_word_witness :
  typedChars (processInput 1000 (lit "the ") engine_the) = 4 /\
  correctChars (processInput 1000 (lit "the ") engine_the) = 4 /\
  currentWordIndex (processInput 1000 (lit "the ") engine_the) = 1%nat.
Proof.
  pose proof (processInput_commits_word 1000 (lit "the ") engine_the
                (reach_construct 3 rnd0 1000 opts_the None engine_the eq_refl)
                eq_refl eq_refl) as H.
  cbv zeta in H. destruct H as (_ & _ & _ & Hi & _ & _ & H4).
  destruct (H4 eq_refl eq_refl) as [Ht Hc].
  split; [exact Ht|]. split; [exact Hc|exact Hi].
Defined.

(** ** Counters and history over whole sessions *)

(** C2: starting from any reachable state, after every call of any sequence
    of calls ([start], [processInput], [processKeystroke], [tick], [finish],
    [resetTest], [setMode], [setTimeLimit], the history timer, callback
    registration) [correctChars <= typedChars]. *)
Theorem correct_le_typed_always (calls : list (Env * Op)) (s s' : Engine) :
  reachable s ->
  run calls s = Some s' ->
  correctChars s' <= typedChars s'.
Proof.
  intros Hr Hrun. apply inv_correct_le_typed, reachable_Inv.
  eapply run_reachable; eassumption.
Qed.

Lemma correct_le_typed_always_witness :
  exists s',
    run [(env0, OpProcessKeystroke (lit "t")); (env0, OpProcessInput (lit "teh "));
         (env0, OpTick); (env0, OpSetTimeLimit 30); (env0, OpProcessInput (lit "the "))]
        engine_the = Some s' /\
    correctChars s' = 4 /\ typedChars s' = 4 /\ correctChars s' <= typedChars s'.
Proof.
  eexists. split; [vm_compute; reflexivity|].
  split; [reflexivity|]. split; [reflexivity|].
  apply (correct_le_typed_always
           [(env0, OpProcessKeystroke (lit "t")); (env0, OpProcessInput (lit "teh "));
            (env0, OpTick); (env0, OpSetTimeLimit 30); (env0, OpProcessInput (lit "the "))]
           engine_the).
  - apply (reach_construct 3 rnd0 1000 opts_the None). reflexivity.
  - vm_compute. reflexivity.
Defined.

(** C8: starting from any reachable state, after every call of any sequence
    of calls [wpmHistory] holds at most 120 entries; [_addHistoryPoint]
    appends the rounded snapshot and, when that makes 121 entries, drops the
    oldest. *)
Theorem wpmHistory_bounded (calls : list (Env * Op)) (s s' : Engine) :
  reachable s ->
  run calls s = Some s' ->
  (length (wpmHistory s') <= 120)%nat /\
  (forall w,
     wpmHistory (_addHistoryPoint w s') =
       if decide (length (wpmHistory s') = 120%nat)
       then drop 1 (wpmHistory s') ++ [Math_round w]
       else wpmHistory s' ++ [Math_round w]).
Proof.
  intros Hr Hrun.
  assert (length (wpmHistory s') <= 120)%nat as Hb.
  { apply inv_history_bound, reachable_Inv. eapply run_reachable; eassumption. }
  split; [exact Hb|]. intros w. unfold _addHistoryPoint. cbn.
  rewrite len_app. unfold len. change (Z.of_nat (length [Math_round w])) with 1.
  destruct (decide (length (wpmHistory s') = 120%nat)) as [E|E].
  - rewrite E. simpl. destruct (wpmHistory s'); [discriminate|reflexivity].
  - destruct (120 <? Z.of_nat (length (wpmHistory s')) + 1) eqn:L; [|reflexivity].
    apply Z.ltb_lt in L. lia.
Qed.

Lemma wpmHistory_bounded_witness :
  exists s',
    run ((env0, OpStart) :: timer_fires 200) engine_the = Some s' /\
    (length (wpmHistory s') <= 120)%nat /\
    length (wpmHistory s') = 120%nat.
Proof.
  eexists. split; [vm_compute; reflexivity|].
  split; [|vm_compute; reflexivity].
  apply (wpmHistory_bounded ((env0, OpStart) :: timer_fires 200) engine_the).
  - apply (reach_construct 3 rnd0 1000 opts_the None). reflexivity.
  - vm_compute. reflexivity.
Defined.

(** ** After the finish *)

Lemma finish_sets_finished (now : Z) (s : Engine) : finished (finish now s) = true.
Proof.
  unfold finish. destruct (finished s) eqn:E; [exact E|].
  cbn. repeat (break_if; cbn); reflexivity.
Qed.

(** C7: once [finished] is set, [processInput], [processKeystroke], [tick]
    and [finish] return at once: the whole state, hence [typedChars],
    [correctChars], [wordHistory], [currentWordIndex] and the trace of
    callback invocations, is unchanged; in particular a second [finish()]
    does not call [onFinish] again. *)
Theorem finished_is_terminal (now : Z) (x : jsstring) (s : Engine) :
  finished s = true ->
  processInput now x s = s /\
  processKeystroke now x s = s /\
  tick now s = s /\
  finish now s = s /\
  (forall t, finish now (finish t s) = finish t s) /\
  emitted (finish now s) = emitted s.
Proof.
  intros Hf. unfold processInput, processKeystroke, tick.
  rewrite Hf, orb_true_r.
  assert (finish now s = s) as E by (unfold finish; rewrite Hf; reflexivity).
  repeat split; try reflexivity; try exact E.
  - intros t. unfold finish at 1. rewrite finish_sets_finished. reflexivity.
  - rewrite E. reflexivity.
Qed.

Lemma finished_is_terminal_witness :
  finished engine_done = true /\
  processInput 4000 (lit "the ") engine_done = engine_done /\
  finish 4000 engine_done = engine_done /\
  length (emitted (finish 4000 engine_done)) = 1%nat.
Proof.
  pose proof (finished_is_terminal 4000 (lit "the ") engine_done eq_refl)
    as (H1 & _ & _ & H4 & _ & H6).
  split; [reflexivity|]. split; [exact H1|]. split; [exact H4|].
  rewrite H6. reflexivity.
Defined.

(** ** Reset, and the setters that reset *)

Lemma resetTest_total (rnd : nat -> N) (now : Z) (fuel : nat) (s : Engine) :
  generation_returns (mode s) (wordsPool s) (seedSize s) ->
  (fuel_for (seedSize s) <= fuel)%nat ->
  exists s', resetTest fuel rnd now s = Some s' /\
             len (words s') = Z.max 0 (seedSize s).
Proof.
  intros Hg Hf.
  destruct (generateWords_total fuel rnd (mode s) (wordsPool s) (seedSize s) Hg Hf)
    as (ws & Hws & Hl).
  destruct (resetTest fuel rnd now s) as [s'|] eqn:E.
  - exists s'. split; [reflexivity|].
    apply resetTest_fields in E. destruct E as (E & _).
    rewrite Hws in E. injection E as <-. exact Hl.
  - unfold resetTest in E. cbn in E. rewrite Hws in E. discriminate.
Qed.

Lemma resetTest_diverges (rnd : nat -> N) (now : Z) (fuel : nat) (s : Engine) :
  mode s <> MODE_NUMBERS -> mode s <> MODE_QUOTES ->
  wordsPool s = [] -> 1 <= seedSize s ->
  resetTest fuel rnd now s = None.
Proof.
  intros H1 H2 Hp Hc. unfold resetTest. cbn. rewrite Hp.
  rewrite generateWords_diverges by assumption. reflexivity.
Qed.

(** C10: for every [count >= 1], [generateWords(count)] returns an array of
    exactly [count] words in numbers mode, in quotes mode, and in any other
    (english) mode when the pool is not empty; so do [resetTest] and the
    constructor with [count] the seed size.  In english mode with an empty
    pool none of them returns, whatever the fuel. *)
Theorem generateWords_terminates_with_count (rnd : nat -> N) (md : jsstring)
  (pool : list jsstring) (count : Z) :
  1 <= count ->
  (md = MODE_NUMBERS \/ md = MODE_QUOTES \/ pool <> [] ->
     (forall fuel, (fuel_for count <= fuel)%nat ->
        exists ws, generateWords fuel rnd md pool count = Some ws /\ len ws = count) /\
     (forall now fuel s, mode s = md -> wordsPool s = pool -> seedSize s = count ->
        (fuel_for count <= fuel)%nat ->
        exists s', resetTest fuel rnd now s = Some s' /\ len (words s') = count) /\
     (forall now fuel opts stored,
        mode (construct_fields opts stored) = md ->
        wordsPool (construct_fields opts stored) = pool ->
        seedSize (construct_fields opts stored) = count ->
        (fuel_for count <= fuel)%nat ->
        exists s', construct fuel rnd now opts stored = Some s' /\
                   len (words s') = count)) /\
  (md <> MODE_NUMBERS -> md <> MODE_QUOTES -> pool = [] ->
     (forall fuel, generateWords fuel rnd md pool count = None) /\
     (forall now fuel s, mode s = md -> wordsPool s = pool -> seedSize s = count ->
        resetTest fuel rnd now s = None)).
Proof.
  intros Hc. split.
  - intros Hm.
    assert (generation_returns md pool count) as Hg.
    { unfold generation_returns. tauto. }
    assert (forall now fuel s, mode s = md -> wordsPool s = pool -> seedSize s = count ->
              (fuel_for count <= fuel)%nat ->
              exists s', resetTest fuel rnd now s = Some s' /\ len (words s') = count) as R.
    { intros now fuel s Em Ep Es Hf.
      destruct (resetTest_total rnd now fuel s) as (s' & H1 & H2).
      - rewrite Em, Ep, Es. exact Hg.
      - rewrite Es. exact Hf.
      - exists s'. split; [exact H1|]. rewrite H2, Es. lia. }
    split; [|split].
    + intros fuel Hf.
      destruct (generateWords_total fuel rnd md pool count Hg Hf) as (ws & H1 & H2).
      exists ws. split; [exact H1|lia].
    + exact R.
    + intros now fuel opts stored Em Ep Es Hf. unfold construct.
      apply R; assumption.
  - intros H1 H2 ->. split.
    + intros fuel. apply generateWords_diverges; assumption.
    + intros now fuel s Em Ep Es. apply resetTest_diverges; congruence.
Qed.

Lemma generateWords_terminates_with_count_witness :
  (exists ws, generateWords 3 rnd0 MODE_QUOTES [] 3 = Some ws /\ len ws = 3) /\
  generateWords 1000 rnd0 MODE_ENGLISH [] 3 = None.
Proof.
  destruct (generateWords_terminates_with_count rnd0 MODE_QUOTES [] 3 ltac:(lia))
    as [H _].
  destruct (H (or_intror (or_introl eq_refl))) as (Hq & _).
  split.
  - apply (Hq 3%nat). reflexivity.
  - destruct (generateWords_terminates_with_count rnd0 MODE_ENGLISH [] 3 ltac:(lia))
      as [_ H'].
    apply H'; [discriminate|discriminate|reflexivity].
Defined.

Lemma resetTest_fresh (fuel : nat) (rnd : nat -> N) (now : Z) (s s' : Engine) :
  resetTest fuel rnd now s = Some s' -> fresh s'.
Proof.
  intros H. apply resetTest_fields in H. unfold fresh. tauto.
Qed.

(** C9 as stated fails: an engine built in numbers mode over an empty pool
    is a session state, and [setMode('english')] on it never returns. *)
Lemma setMode_no_pool_diverges :
  construct 3 rnd0 1000 opts_no_pool None = Some engine_no_pool /\
  ~ exists fuel s', setMode fuel rnd0 2000 MODE_ENGLISH engine_no_pool = Some s'.
Proof.
  split; [reflexivity|]. intros (fuel & s' & H).
  unfold setMode in H. rewrite resetTest_diverges in H; try discriminate; reflexivity.
Qed.

(** C9, amended: in every session state, also mid-run, for which word
    generation returns (the mode after the call is numbers or quotes, or the
    pool is not empty, or the seed size is not positive), [setMode] and
    [setTimeLimit] store their argument and reset: the call returns a state
    that is idle (not started, not finished, no timestamps), whose [words]
    are those [generateWords] produces for the mode now set, with
    [currentWordIndex] 0, [currentInput] empty and both counters 0. *)
Theorem setters_reset (rnd : nat -> N) (now : Z) (fuel : nat) (s : Engine) :
  (fuel_for (seedSize s) <= fuel)%nat ->
  (forall md,
     generation_returns md (wordsPool s) (seedSize s) ->
     exists s', setMode fuel rnd now md s = Some s' /\
                mode s' = md /\ fresh s' /\
                generateWords fuel rnd md (wordsPool s) (seedSize s) = Some (words s')) /\
  (forall sec,
     generation_returns (mode s) (wordsPool s) (seedSize s) ->
     exists s', setTimeLimit fuel rnd now sec s = Some s' /\
                timeLimit s' = sec /\ timeLeft s' = sec /\ fresh s' /\
                generateWords fuel rnd (mode s) (wordsPool s) (seedSize s)
                  = Some (words s')).
Proof.
  intros Hf. split.
  - intros md Hg. unfold setMode.
    destruct (resetTest_total rnd now fuel (set_mode md s) Hg Hf) as (s' & H & _).
    exists s'. split; [exact H|].
    pose proof (resetTest_fresh _ _ _ _ _ H) as Hfr.
    apply resetTest_fields in H. cbn in H. tauto.
  - intros sec Hg. unfold setTimeLimit.
    destruct (resetTest_total rnd now fuel (set_timeLeft sec (set_timeLimit sec s)) Hg Hf)
      as (s' & H & _).
    exists s'. split; [exact H|].
    pose proof (resetTest_fresh _ _ _ _ _ H) as Hfr.
    apply resetTest_fields in H. cbn in H.
    destruct H as (Hw & _ & _ & _ & _ & _ & _ & Htl & _ & _ & _ & _ & _ & Hl & _).
    rewrite Hl, Htl. tauto.
Qed.

Lemma setters_reset_witness :
  started engine_midrun = true /\ typedChars engine_midrun = 6 /\
  (exists s', setMode 3 rnd0 3000 MODE_QUOTES engine_midrun = Some s' /\
              mode s' = MODE_QUOTES /\ fresh s' /\
              words s' = [lit "To"; lit "be"; lit "or"]) /\
  (exists s', setTimeLimit 3 rnd0 3000 15 engine_midrun = Some s' /\
              timeLimit s' = 15 /\ fresh s').
Proof.
  split; [reflexivity|]. split; [reflexivity|].
  destruct (setters_reset rnd0 3000 3 engine_midrun ltac:(reflexivity)) as [Hm Ht].
  split.
  - destruct (Hm MODE_QUOTES) as (s' & H1 & H2 & H3 & H4).
    + right. left. reflexivity.
    + exists s'. split; [exact H1|]. split; [exact H2|]. split; [exact H3|].
      change (Some [lit "To"; lit "be"; lit "or"] = Some (words s')) in H4.
      injection H4 as <-. reflexivity.
  - destruct (Ht 15) as (s' & H1 & H2 & _ & H3 & _).
    + right. right. left. discriminate.
    + exists s'. split; [exact H1|]. split; [exact H2|exact H3].
Defined.

(** ** Limits are stored as given *)

(** C4 as stated fails: a negative time limit and a negative seed size are
    stored as they are, by the constructor and by [setTimeLimit]; a zero
    time limit passes [setTimeLimit] too. *)
Lemma negative_limits_are_stored :
  (exists s, construct 0 rnd0 1000 opts_negative None = Some s /\
             timeLimit s = -5 /\ seedSize s = -3 /\
             ~ (1 <= timeLimit s) /\ ~ (1 <= seedSize s)) /\
  (exists s, setTimeLimit 3 rnd0 2000 (-5) engine_the = Some s /\
             timeLimit s = -5 /\ ~ (1 <= timeLimit s)) /\
  (exists s, setTimeLimit 3 rnd0 2000 0 engine_the = Some s /\
             timeLimit s = 0 /\ ~ (1 <= timeLimit s)).
Proof.
  split; [|split]; eexists; (split; [vm_compute; reflexivity|]); cbn; repeat split; lia.
Qed.

(** C4, amended: the engine clamps nothing.  The constructor replaces an
    absent or zero [timeLimit] by 60 and an absent or zero [seedSize] by 200
    and stores every other value, negative ones too, unchanged;
    [setTimeLimit(sec)] stores [sec] unchanged in [timeLimit] and [timeLeft]
    and leaves [seedSize] alone; the engine has no seed-size setter.  A
    seed-size setter exists outside the engine, [Modes.setSeedSize] of
    scripts/modes.js, and that one clamps, into 20..5000. *)
Theorem limits_stored_unclamped (rnd : nat -> N) (now : Z) (fuel : nat) :
  (forall opts stored,
     let s0 := construct_fields opts stored in
     generation_returns (mode s0) (wordsPool s0) (seedSize s0) ->
     (fuel_for (seedSize s0) <= fuel)%nat ->
     exists s, construct fuel rnd now opts stored = Some s /\
       (forall v, opt_timeLimit opts = Some v -> v <> 0 -> timeLimit s = v) /\
       (opt_timeLimit opts = None \/ opt_timeLimit opts = Some 0 -> timeLimit s = 60) /\
       (forall v, opt_seedSize opts = Some v -> v <> 0 -> seedSize s = v) /\
       (opt_seedSize opts = None \/ opt_seedSize opts = Some 0 -> seedSize s = 200)) /\
  (forall sec s,
     generation_returns (mode s) (wordsPool s) (seedSize s) ->
     (fuel_for (seedSize s) <= fuel)%nat ->
     exists s', setTimeLimit fuel rnd now sec s = Some s' /\
       timeLimit s' = sec /\ timeLeft s' = sec /\ seedSize s' = seedSize s) /\
  (forall n, 20 <= Modes_setSeedSize n <= 5000 /\
             (20 <= n <= 5000 -> Modes_setSeedSize n = n)).
Proof.
  split; [|split].
  - intros opts stored s0 Hg Hf. unfold construct. fold s0.
    destruct (resetTest_total rnd now fuel s0 Hg Hf) as (s & H & _).
    exists s. split; [exact H|].
    apply resetTest_fields in H.
    destruct H as (_ & _ & _ & _ & _ & _ & _ & _ & _ & _ & _ & _ & _ & Htl & _ & _ & Hss & _).
    rewrite Htl, Hss. subst s0. cbn. unfold num_or.
    repeat split.
    + intros v -> Hv. apply Z.eqb_neq in Hv. rewrite Hv. reflexivity.
    + intros [->| ->]; reflexivity.
    + intros v -> Hv. apply Z.eqb_neq in Hv. rewrite Hv. reflexivity.
    + intros [->| ->]; reflexivity.
  - intros sec s Hg Hf. unfold setTimeLimit.
    destruct (resetTest_total rnd now fuel (set_timeLeft sec (set_timeLimit sec s)) Hg Hf)
      as (s' & H & _).
    exists s'. split; [exact H|].
    apply resetTest_fields in H. cbn in H.
    destruct H as (_ & _ & _ & _ & _ & _ & _ & Htl & _ & _ & _ & _ & _ & Hl & _ & _ & Hss & _).
    rewrite Hl, Htl, Hss. repeat split; reflexivity.
  - intros n. unfold Modes_setSeedSize, clamp. lia.
Qed.

Lemma limits_stored_unclamped_witness :
  (exists s, construct 0 rnd0 1000 opts_negative None = Some s /\
             timeLimit s = -5 /\ seedSize s = -3) /\
  (exists s, setTimeLimit 3 rnd0 2000 (-5) engine_the = Some s /\ timeLimit s = -5) /\
  Modes_setSeedSize (-3) = 20.
Proof.
  destruct (limits_stored_unclamped rnd0 1000 0) as (Hc & _ & _).
  destruct (limits_stored_unclamped rnd0 2000 3) as (_ & Hs & _).
  split; [|split].
  - destruct (Hc opts_negative None) as (s & H & H1 & _ & H3 & _).
    + right. right. right. cbn. lia.
    + reflexivity.
    + exists s. split; [exact H|]. split.
      * apply H1; [reflexivity|lia].
      * apply H3; [reflexivity|lia].
  - destruct (Hs (-5) engine_the) as (s & H & H1 & _).
    + right. right. left. discriminate.
    + reflexivity.
    + exists s. split; [exact H|exact H1].
  - reflexivity.
Defined.

(** ** Typing a word key by key *)

Lemma processKeystroke_char (now : Z) (c : N) (s : Engine) :
  finished s = false -> c <> SPACE ->
  let s' := processKeystroke now [c] s in
  typedChars s' = typedChars s + 1 /\
  correctChars s' = correctChars s /\
  currentInput s' = currentInput s ++ [c] /\
  currentWordIndex s' = currentWordIndex s /\ words s' = words s /\
  spaceCountsAsChar s' = spaceCountsAsChar s /\
  finished s' = false.
Proof.
  intros Hf Hc. cbn zeta. unfold processKeystroke. rewrite Hf.
  fold (ensure_started now s).
  destruct (ensure_started_keeps now s)
    as (Ht & Hcc & Hw & Hi & Hin & Hws & Hsp & Hh & Hfin & Hu & Hst).
  set (s1 := ensure_started now s) in *.
  assert (str_eqb [c] KEY_BACKSPACE = false) as ->
    by (apply str_eqb_neq; discriminate).
  assert (str_eqb [c] [SPACE] = false) as ->
    by (apply str_eqb_neq; congruence).
  match goal with
  | |- context [notifyWordState ?t] =>
      destruct (notifyWordState_keeps t)
        as (Kt & Kc & Kw & Ki & Kin & Kws & Ksp & Kh & Kfin & Kst)
  end.
  rewrite Kt, Kc, Ki, Kin, Kws, Ksp, Kfin. cbn.
  rewrite Ht, Hcc, Hi, Hin, Hws, Hsp, Hfin, Hf. repeat split; reflexivity.
Qed.

Lemma type_keys_cons (now : Z) (c : N) (w : jsstring) (s : Engine) :
  type_keys now (c :: w) s = type_keys now w (processKeystroke now [c] s).
Proof. reflexivity. Qed.

Lemma type_keys_counts (now : Z) (w : jsstring) (s : Engine) :
  finished s = false -> Forall (fun c => c <> SPACE) w ->
  let s' := type_keys now w s in
  typedChars s' = typedChars s + len w /\
  correctChars s' = correctChars s /\
  currentInput s' = currentInput s ++ w /\
  currentWordIndex s' = currentWordIndex s /\ words s' = words s /\
  spaceCountsAsChar s' = spaceCountsAsChar s /\
  finished s' = false.
Proof.
  intros Hf Hw. revert s Hf. induction Hw as [|c w Hc Hw IH]; intros s Hf.
  - cbn. rewrite app_nil_r. unfold len. simpl. repeat split; try lia; assumption.
  - cbn zeta. rewrite type_keys_cons.
    destruct (processKeystroke_char now c s Hf Hc) as (A1 & A2 & A3 & A4 & A5 & A6 & A7).
    destruct (IH _ A7) as (B1 & B2 & B3 & B4 & B5 & B6 & B7).
    rewrite B1, B2, B3, B4, B5, B6, B7, A1, A2, A3, A4, A5, A6.
    rewrite <- app_assoc. unfold len. simpl.
    repeat split; try reflexivity; lia.
Qed.

Lemma ends_with_space_snoc (buf : jsstring) (c : N) :
  c <> SPACE -> ends_with_space (buf ++ [c]) = false.
Proof.
  intros Hc. unfold ends_with_space. rewrite last_snoc.
  apply N.eqb_neq. exact Hc.
Qed.

Lemma type_buffer_counts (now : Z) (w buf : jsstring) (s : Engine) :
  finished s = false -> currentInput s = buf -> Forall (fun c => c <> SPACE) w ->
  let s' := type_buffer now buf w s in
  typedChars s' = typedChars s + len w /\
  correctChars s' = correctChars s /\
  currentInput s' = buf ++ w /\
  currentWordIndex s' = currentWordIndex s /\ words s' = words s /\
  spaceCountsAsChar s' = spaceCountsAsChar s /\
  finished s' = false.
Proof.
  intros Hf Hb Hw. revert s buf Hf Hb.
  induction Hw as [|c w Hc Hw IH]; intros s buf Hf Hb.
  - cbn. rewrite app_nil_r. unfold len. simpl. repeat split; try lia; assumption.
  - cbn zeta. cbn [type_buffer].
    destruct (processInput_buffer now (buf ++ [c]) s Hf (ends_with_space_snoc buf c Hc))
      as (A1 & A2 & _ & A4 & A5 & A6 & A7 & _ & A9 & _).
    destruct (IH _ (buf ++ [c]) A9 A5) as (B1 & B2 & B3 & B4 & B5 & B6 & B7).
    rewrite B1, B2, B3, B4, B5, B6, B7, A1, A2, A4, A6, A7, Hb.
    rewrite <- app_assoc, len_app. unfold len. simpl.
    repeat split; try reflexivity; lia.
Qed.

(** On the session "the", the keys t, h, e and the separator take
    [typedChars] from 0 to 8, not to 3 + (3 + 1) = 7. *)
Lemma separator_keystroke_is_counted :
  typedChars engine_the = 0 /\
  trim (lit "the" ++ [SPACE]) = lit "the" /\
  typedChars (processKeystroke 1000 [SPACE] (type_keys 1000 (lit "the") engine_the)) = 8 /\
  typedChars (processKeystroke 1000 [SPACE] (type_keys 1000 (lit "the") engine_the))
    <> typedChars engine_the + len (lit "the") + (len (trim (lit "the" ++ [SPACE])) + 1).
Proof. vm_compute. repeat split; discriminate. Qed.

(** C3: the code counts the separator key twice.  On a session that is not
    finished, [processKeystroke] with the separator appends it to
    [currentInput], runs [typedChars++] as for every other key, and only
    then hands the buffer to [processInput], whose commit adds
    [typed.length + 1], the separator included.  So a word [w] typed key by
    key and committed with the separator key adds [|w| + 1] and
    [typed.length + 1], one more than the claim's [|w|] and
    [typed.length + 1].  The sibling path does what the claim says: the
    same word typed through the input field ([processInput] with each
    prefix, then with the separator) adds exactly [|w|] and
    [typed.length + 1]. *)
Theorem separator_keystroke_counts_itself (now : Z) (w : jsstring) (s : Engine) :
  reachable s ->
  finished s = false ->
  currentInput s = [] ->
  Forall (fun c => c <> SPACE) w ->
  let typed := trim (w ++ [SPACE]) in
  let s1 := type_keys now w s in
  let by_keys := processKeystroke now [SPACE] s1 in
  let by_buffer := processInput now (w ++ [SPACE]) (type_buffer now [] w s) in
  by_keys =
    processInput now (w ++ [SPACE])
      (set_typedChars (typedChars s1 + 1)
         (set_currentInput (w ++ [SPACE]) (ensure_started now s1))) /\
  typedChars s1 = typedChars s + len w /\
  typedChars by_keys = typedChars s + (len w + 1) + (len typed + 1) /\
  currentInput by_keys = [] /\
  currentWordIndex by_keys = S (currentWordIndex s) /\
  typedChars by_buffer = typedChars s + len w + (len typed + 1).
Proof.
  intros Hr Hf Hin Hw typed s1 by_keys by_buffer.
  pose proof (inv_space_counts s (reachable_Inv s Hr)) as Hsp.
  destruct (type_keys_counts now w s Hf Hw) as (A1 & _ & A3 & A4 & _ & A6 & A7).
  fold s1 in A1, A3, A4, A6, A7. rewrite Hin in A3. cbn [app] in A3.
  destruct (ensure_started_keeps now s1)
    as (Ht & _ & _ & Hi & Hci & _ & Hs1 & _ & Hfin & _).
  assert (by_keys =
            processInput now (w ++ [SPACE])
              (set_typedChars (typedChars s1 + 1)
                 (set_currentInput (w ++ [SPACE]) (ensure_started now s1)))) as Hd.
  { subst by_keys. unfold processKeystroke. rewrite A7.
    fold (ensure_started now s1).
    assert (str_eqb [SPACE] KEY_BACKSPACE = false) as ->
      by (apply str_eqb_neq; discriminate).
    assert (str_eqb [SPACE] [SPACE] = true) as -> by (apply str_eqb_eq; reflexivity).
    cbn. rewrite Hci, A3, Ht. reflexivity. }
  destruct (processInput_commit now (w ++ [SPACE])
              (set_typedChars (typedChars s1 + 1)
                 (set_currentInput (w ++ [SPACE]) (ensure_started now s1))))
    as (Kt & _ & _ & Ki & Kin & _).
  { cbn. rewrite Hfin. exact A7. }
  { apply ends_with_space_app. }
  rewrite <- Hd in Kt, Ki, Kin. cbn in Kt, Ki.
  unfold space_credit in Kt. cbn in Kt. rewrite Hs1, A6, Hsp in Kt.
  split; [exact Hd|]. split; [exact A1|].
  split; [rewrite Kt; unfold typed, trim, trim_end; lia|].
  split; [exact Kin|]. split; [rewrite Ki, Hi, A4; reflexivity|].
  destruct (type_buffer_counts now w [] s Hf Hin Hw) as (B1 & _ & _ & _ & _ & B6 & B7).
  subst by_buffer.
  destruct (processInput_commit now (w ++ [SPACE]) (type_buffer now [] w s) B7
              (ends_with_space_app w)) as (Kt' & _).
  rewrite Kt'. unfold space_credit. rewrite B6, Hsp, B1. fold typed. lia.
Qed.

(** The word "the": four keystrokes add 8 to [typedChars]; through the
    input field they add 7. *)
Lemma separator_keystroke_counts_itself_witness :
  typedChars engine_the = 0 /\
  typedChars (processKeystroke 1000 [SPACE] (type_keys 1000 (lit "the") engine_the)) = 8 /\
  typedChars (processInput 1000 (lit "the ") (type_buffer 1000 [] (lit "the") engine_the)) = 7.
Proof.
  destruct (separator_keystroke_counts_itself 1000 (lit "the") engine_the)
    as (_ & _ & Hk & _ & _ & Hb).
  - apply (reach_construct 3 rnd0 1000 opts_the None). reflexivity.
  - reflexivity.
  - reflexivity.
  - repeat constructor; discriminate.
  - split; [reflexivity|]. split; [exact Hk|exact Hb].
Defined.

(** ** Binary64 arithmetic on counters: no NaN, no negative zero *)

Lemma shr_1_m (r : shr_record) : 0 <= shr_m r -> shr_m (shr_1 r) = shr_m r / 2.
Proof.
  destruct r as [m r s]. simpl. intros H. rewrite <- Z.div2_div.
  destruct m as [|[p|p|]|p]; simpl; try reflexivity; lia.
Qed.

Lemma iter_shr_1_m (p : positive) (r : shr_record) :
  0 <= shr_m r -> shr_m (SpecFloat.iter_pos shr_1 p r) = shr_m r / 2 ^ Z.pos p.
Proof.
  revert r. induction p as [p IH|p IH|]; intros r H; cbn [SpecFloat.iter_pos].
  - assert (0 <= shr_m (shr_1 r)) as H1 by (rewrite shr_1_m by lia; apply Z.div_pos; lia).
    assert (0 <= shr_m (SpecFloat.iter_pos shr_1 p (shr_1 r))) as H2
      by (rewrite IH by lia; apply Z.div_pos; lia).
    rewrite IH, IH, shr_1_m by assumption.
    rewrite !Z.div_div by lia. f_equal.
    rewrite Pos2Z.inj_xI.
    replace (2 * Z.pos p + 1) with (1 + Z.pos p + Z.pos p) by lia.
    rewrite !Z.pow_add_r by lia. rewrite Z.pow_1_r. ring.
  - assert (0 <= shr_m (SpecFloat.iter_pos shr_1 p r)) as H2
      by (rewrite IH by lia; apply Z.div_pos; lia).
    rewrite IH, IH by assumption.
    rewrite Z.div_div by lia. f_equal.
    rewrite Pos2Z.inj_xO. rewrite <- Z.pow_add_r by lia. f_equal. lia.
  - rewrite shr_1_m by assumption. reflexivity.
Qed.

Lemma digits2_pos_bounds (p : positive) :
  2 ^ (Z.pos (digits2_pos p) - 1) <= Z.pos p < 2 ^ Z.pos (digits2_pos p).
Proof.
  induction p as [p IH|p IH|]; cbn [digits2_pos].
  - rewrite Pos2Z.inj_succ. change (Z.pos p~1) with (2 * Z.pos p + 1).
    replace (Z.succ (Z.pos (digits2_pos p)) - 1) with (Z.succ (Z.pos (digits2_pos p) - 1)) by lia.
    rewrite !Z.pow_succ_r by lia.
    set (a := 2 ^ (Z.pos (digits2_pos p) - 1)) in *.
    set (b := 2 ^ Z.pos (digits2_pos p)) in *. clearbody a b. lia.
  - rewrite Pos2Z.inj_succ. change (Z.pos p~0) with (2 * Z.pos p).
    replace (Z.succ (Z.pos (digits2_pos p)) - 1) with (Z.succ (Z.pos (digits2_pos p) - 1)) by lia.
    rewrite !Z.pow_succ_r by lia.
    set (a := 2 ^ (Z.pos (digits2_pos p) - 1)) in *.
    set (b := 2 ^ Z.pos (digits2_pos p)) in *. clearbody a b. lia.
  - simpl. lia.
Qed.

Lemma Zdigits2_bounds (m : Z) :
  0 < m -> 0 < Zdigits2 m /\ 2 ^ (Zdigits2 m - 1) <= m < 2 ^ Zdigits2 m.
Proof.
  destruct m as [|p|p]; try lia. intros _. simpl.
  split; [lia|apply digits2_pos_bounds].
Qed.

Lemma Zdigits2_le (m k : Z) : 0 < m -> 0 <= k -> m < 2 ^ k -> Zdigits2 m <= k.
Proof.
  intros Hm Hk Hlt. destruct (Zdigits2_bounds m Hm) as (Hd & Hlo & _).
  destruct (Z.le_gt_cases (Zdigits2 m) k) as [|Hgt]; [assumption|].
  assert (2 ^ k <= 2 ^ (Zdigits2 m - 1)) by (apply Z.pow_le_mono_r; lia).
  lia.
Qed.

Lemma shr_record_of_loc_m (m : Z) (l : location) : shr_m (shr_record_of_loc m l) = m.
Proof. destruct l as [|[]]; reflexivity. Qed.

Lemma round_nearest_even_bounds (m : Z) (l : location) :
  m <= round_nearest_even m l <= m + 1.
Proof.
  unfold round_nearest_even. destruct l as [|[]]; try lia.
  destruct (Z.even m); lia.
Qed.

(** One right shift to the binary64 format: the mantissa stays positive. *)
Lemma shr_fexp_step (m e : Z) (l : location) :
  0 < m -> -1074 <= e ->
  exists r e',
    shr_fexp prec64 emax64 m e l = (r, e') /\
    0 < shr_m r <= m /\
    e <= e' <= e + Z.max 0 (Zdigits2 m - 53).
Proof.
  intros Hm He. unfold shr_fexp, shr, fexp, emin, prec64, emax64.
  destruct (Zdigits2_bounds m Hm) as (Hd & Hlo & Hhi).
  set (d := Zdigits2 m) in *.
  destruct (Z.max (d + e - 53) (3 - 1024 - 53) - e) as [|p|p] eqn:En.
  - eexists _, _. split; [reflexivity|]. rewrite shr_record_of_loc_m. lia.
  - eexists _, _. split; [reflexivity|].
    rewrite iter_shr_1_m by (rewrite shr_record_of_loc_m; lia).
    rewrite shr_record_of_loc_m.
    assert (Z.pos p = d - 53) as Ep by lia.
    split; [|lia]. split.
    + assert (2 ^ 52 <= m / 2 ^ Z.pos p); [|lia].
      rewrite Ep.
      replace (2 ^ 52) with (2 ^ (d - 1) / 2 ^ (d - 53)).
      * apply Z.div_le_mono; [|exact Hlo]. apply Z.pow_pos_nonneg; lia.
      * rewrite <- Z.pow_sub_r by lia. f_equal. lia.
    + apply Z.div_le_upper_bound; [apply Z.pow_pos_nonneg; lia|].
      assert (1 <= 2 ^ Z.pos p) by (apply (Z.pow_le_mono_r 2 0); lia). nia.
  - eexists _, _. split; [reflexivity|]. rewrite shr_record_of_loc_m. lia.
Qed.

Lemma shr_fexp_nonneg (m e : Z) (l : location) :
  0 <= m -> 0 <= shr_m (fst (shr_fexp prec64 emax64 m e l)).
Proof.
  intros Hm. unfold shr_fexp, shr.
  destruct (fexp prec64 emax64 (Zdigits2 m + e) - e) as [|p|p]; simpl;
    rewrite ?iter_shr_1_m by (rewrite shr_record_of_loc_m; lia);
    rewrite shr_record_of_loc_m; try lia.
  apply Z.div_pos; [lia|]. apply Z.pow_pos_nonneg; lia.
Qed.

(** Rounding a non-negative mantissa never yields NaN nor a negative number. *)
Lemma binary_round_aux_nonneg (m e : Z) (l : location) :
  0 <= m -> nonneg_num (binary_round_aux prec64 emax64 false m e l).
Proof.
  intros Hm. unfold binary_round_aux.
  pose proof (shr_fexp_nonneg m e l Hm) as H1.
  destruct (shr_fexp prec64 emax64 m e l) as [r1 e1]. simpl in H1.
  pose proof (round_nearest_even_bounds (shr_m r1) (loc_of_shr_record r1)) as Hr.
  pose proof (shr_fexp_nonneg (round_nearest_even (shr_m r1) (loc_of_shr_record r1))
                e1 loc_Exact ltac:(lia)) as H2.
  destruct (shr_fexp prec64 emax64 _ e1 loc_Exact) as [r2 e2]. simpl in H2.
  destruct (shr_m r2) as [|p|p]; simpl; try lia; try exact I.
  destruct (e2 <=? emax64 - prec64); exact I.
Qed.

(** Rounding a positive mantissa of moderate size and exponent yields a
    positive finite number. *)
Lemma binary_round_aux_finite (m e : Z) (l : location) :
  0 < m -> -1074 <= e <= 400 -> Zdigits2 m <= 200 ->
  exists m' e',
    binary_round_aux prec64 emax64 false m e l = S754_finite false m' e' /\
    Z.pos m' <= m + 1 /\ e <= e' <= e + 2 * Z.max 0 (Zdigits2 m - 52).
Proof.
  intros Hm He Hd. unfold binary_round_aux.
  destruct (shr_fexp_step m e l Hm ltac:(lia)) as (r1 & e1 & E1 & Hr1 & He1).
  rewrite E1.
  pose proof (round_nearest_even_bounds (shr_m r1) (loc_of_shr_record r1)) as Hr.
  set (r := round_nearest_even (shr_m r1) (loc_of_shr_record r1)) in *.
  destruct (shr_fexp_step r e1 loc_Exact ltac:(lia) ltac:(lia)) as (r2 & e2 & E2 & Hr2 & He2).
  rewrite E2.
  destruct (Zdigits2_bounds m Hm) as (Hdpos & _ & Hhi).
  assert (Zdigits2 r <= Zdigits2 m + 1) as Hdr.
  { apply Zdigits2_le; [lia|lia|].
    rewrite Z.pow_add_r, Z.pow_1_r by lia. lia. }
  destruct (shr_m r2) as [|p|p] eqn:Ep; try lia.
  assert ((e2 <=? emax64 - prec64) = true) as ->
    by (apply Z.leb_le; unfold emax64, prec64; lia).
  exists p, e2. split; [reflexivity|]. lia.
Qed.

Lemma Pos_iter_xO (m d : positive) : Z.pos (Pos.iter xO m d) = Z.pos m * 2 ^ Z.pos d.
Proof.
  induction d as [|d IH] using Pos.peano_ind.
  - simpl. lia.
  - rewrite Pos.iter_succ, Pos2Z.inj_succ, Z.pow_succ_r by lia.
    change (Z.pos (Pos.iter xO m d)~0) with (2 * Z.pos (Pos.iter xO m d)).
    rewrite IH. ring.
Qed.

(** An integer of the safe range converts to a positive finite number. *)
Lemma of_Z_finite (z : Z) :
  0 < z < 2 ^ 53 ->
  exists m e, of_Z z = S754_finite false m e /\ Z.pos m <= 2 ^ 53 /\ -52 <= e <= 2.
Proof.
  intros Hz. destruct z as [|p|p]; try lia.
  unfold of_Z, binary_normalize, binary_round.
  assert (Zdigits2 (Z.pos p) <= 53) as Hd by (apply Zdigits2_le; lia).
  destruct (Zdigits2_bounds (Z.pos p) ltac:(lia)) as (Hdp & Hlo & Hhi).
  change (Zdigits2 (Z.pos p)) with (Z.pos (digits2_pos p)) in *.
  set (d := Z.pos (digits2_pos p)) in *.
  unfold shl_align, fexp, emin, prec64, emax64.
  replace (Z.max (d + 0 - 53) (3 - 1024 - 53) - 0) with (d - 53) by lia.
  destruct (d - 53) as [|q|q] eqn:Eq; try lia.
  - destruct (binary_round_aux_finite (Z.pos p) 0 loc_Exact
                ltac:(lia) ltac:(lia) ltac:(change (d <= 200); lia))
      as (m' & e' & E & Hm' & He').
    change (Zdigits2 (Z.pos p)) with d in He'.
    exists m', e'. split; [exact E|]. lia.
  - assert (Z.pos (Pos.iter xO p q) < 2 ^ 53) as Hb.
    { rewrite Pos_iter_xO.
      assert (2 ^ d * 2 ^ Z.pos q = 2 ^ 53) as <-
        by (rewrite <- Z.pow_add_r by lia; f_equal; lia).
      apply Z.mul_lt_mono_pos_r; [apply Z.pow_pos_nonneg; lia|exact Hhi]. }
    assert (Zdigits2 (Z.pos (Pos.iter xO p q)) <= 53) as Hd'
      by (apply Zdigits2_le; lia).
    destruct (binary_round_aux_finite (Z.pos (Pos.iter xO p q)) (d + 0 - 53) loc_Exact
                ltac:(lia) ltac:(lia) ltac:(lia))
      as (m' & e' & E & Hm' & He').
    replace (Z.max (d + 0 - 53) (3 - 1024 - 53)) with (d + 0 - 53) by lia.
    exists m', e'. split; [exact E|]. lia.
Qed.

Lemma of_Z_nonneg (z : Z) : 0 <= z -> nonneg_num (of_Z z).
Proof.
  intros Hz. destruct z as [|p|p]; try lia; [exact I|].
  unfold of_Z, binary_normalize, binary_round.
  destruct (shl_align p 0 _) as [mz ez].
  apply binary_round_aux_nonneg. lia.
Qed.

Lemma div_core_nonneg (m1 e1 m2 e2 : Z) :
  0 < m1 -> 0 < m2 ->
  0 <= fst (fst (SFdiv_core_binary prec64 emax64 m1 e1 m2 e2)).
Proof.
  intros H1 H2. unfold SFdiv_core_binary.
  set (s := e1 - e2 - _).
  set (m' := match s with Z.pos _ => Z.shiftl m1 s | 0 => m1 | Z.neg _ => 0 end).
  assert (0 <= m') as Hm'.
  { subst m'. destruct s; try lia. apply Z.shiftl_nonneg. lia. }
  pose proof (Z.div_pos m' m2 Hm' H2) as Hq. unfold Z.div in Hq.
  destruct (Z.div_eucl m' m2) as [q r]. exact Hq.
Qed.

(** A quotient of a non-negative number by a positive finite one is a
    non-negative number: never NaN, never a negative zero. *)
Lemma fdiv_nonneg (x y : float64) :
  nonneg_num x -> finite_pos y -> nonneg_num (fdiv x y).
Proof.
  destruct x as [[]|[]| |[] mx ex], y as [[]|[]| |[] my ey]; simpl; try tauto.
  intros _ _.
  pose proof (div_core_nonneg (Z.pos mx) ex (Z.pos my) ey ltac:(lia) ltac:(lia)) as H.
  destruct (SFdiv_core_binary prec64 emax64 (Z.pos mx) ex (Z.pos my) ey) as [[mz ez] lz].
  apply binary_round_aux_nonneg. exact H.
Qed.

Lemma fmul_nonneg (x y : float64) :
  nonneg_num x -> finite_pos y -> nonneg_num (fmul x y).
Proof.
  destruct x as [[]|[]| |[] mx ex], y as [[]|[]| |[] my ey]; simpl; try tauto.
  intros _ _. apply binary_round_aux_nonneg. lia.
Qed.

Lemma shift_case (m s : Z) :
  0 <= s ->
  match s with Z.pos _ => Z.shiftl m s | 0 => m | Z.neg _ => 0 end = m * 2 ^ s.
Proof.
  intros H. destruct s as [|p|p]; [simpl; lia|apply Z.shiftl_mul_pow2; lia|lia].
Qed.

(** A quotient of two positive finite numbers of moderate exponent is
    positive and finite: no underflow to zero, no overflow. *)
Lemma fdiv_finite (m1 m2 : positive) (e1 e2 : Z) :
  Z.pos m1 <= 2 ^ 53 -> Z.pos m2 <= 2 ^ 53 ->
  -60 <= e1 <= 60 -> -60 <= e2 <= 60 ->
  finite_pos (fdiv (S754_finite false m1 e1) (S754_finite false m2 e2)).
Proof.
  intros H1 H2 He1 He2. unfold fdiv, SFdiv, SFdiv_core_binary.
  destruct (Zdigits2_bounds (Z.pos m1) ltac:(lia)) as (Hd1 & Hlo1 & Hhi1).
  destruct (Zdigits2_bounds (Z.pos m2) ltac:(lia)) as (Hd2 & Hlo2 & Hhi2).
  assert (Zdigits2 (Z.pos m1) <= 54) as Hb1 by (apply Zdigits2_le; lia).
  assert (Zdigits2 (Z.pos m2) <= 54) as Hb2 by (apply Zdigits2_le; lia).
  set (d1 := Zdigits2 (Z.pos m1)) in *. set (d2 := Zdigits2 (Z.pos m2)) in *.
  unfold fexp, emin, prec64, emax64.
  set (e' := Z.min (Z.max (d1 + e1 - (d2 + e2) - 53) (3 - 1024 - 53)) (e1 - e2)).
  set (s := e1 - e2 - e').
  assert (53 - d1 + d2 <= s <= 107) as Hs by (subst s e'; lia).
  assert (0 <= s) as Hs0 by lia.
  set (m' := match s with Z.pos _ => Z.shiftl (Z.pos m1) s | 0 => Z.pos m1 | Z.neg _ => 0 end).
  assert (m' = Z.pos m1 * 2 ^ s) as Em'.
  { subst m'. apply shift_case. exact Hs0. }
  assert (0 < 2 ^ s) as Hps by (apply Z.pow_pos_nonneg; lia).
  assert (Z.pos m2 <= m') as Hge.
  { rewrite Em'.
    assert (2 ^ d2 <= 2 ^ (d1 - 1) * 2 ^ s).
    { rewrite <- Z.pow_add_r by lia. apply Z.pow_le_mono_r; lia. }
    assert (2 ^ (d1 - 1) * 2 ^ s <= Z.pos m1 * 2 ^ s)
      by (apply Z.mul_le_mono_nonneg_r; lia).
    lia. }
  assert (m' < 2 ^ 161) as Hlt.
  { rewrite Em'.
    assert (2 ^ s <= 2 ^ 107) by (apply Z.pow_le_mono_r; lia).
    replace (2 ^ 161) with (2 ^ 54 * 2 ^ 107) by reflexivity.
    assert (Z.pos m1 < 2 ^ 54) by (replace (2 ^ 54) with (2 * 2 ^ 53) by reflexivity; lia).
    nia. }
  assert (1 <= m' / Z.pos m2 <= m') as Hq.
  { split.
    - apply Z.div_le_lower_bound; lia.
    - apply Z.div_le_upper_bound; [lia|]. nia. }
  unfold Z.div in Hq. destruct (Z.div_eucl m' (Z.pos m2)) as [q r].
  assert (Zdigits2 q <= 200) as Hdq.
  { assert (Zdigits2 q <= 161); [|lia]. apply Zdigits2_le; lia. }
  destruct (binary_round_aux_finite q e' (new_location (Z.pos m2) r)
              ltac:(lia) ltac:(subst e'; lia) Hdq)
    as (m3 & e3 & E & _).
  unfold prec64, emax64 in E. cbv beta iota zeta. cbn [xorb].
  rewrite E. exact I.
Qed.

Lemma Math_round_nonneg (x : float64) : nonneg_num x -> nonneg_num (Math_round x).
Proof.
  destruct x as [[]|[]| |[] m e]; simpl; try tauto. intros _.
  destruct (0 <=? e) eqn:E; [exact I|]. apply Z.leb_gt in E.
  assert (0 < 2 ^ (- e)) by (apply Z.pow_pos_nonneg; lia).
  destruct ((2 * Z.pos m + 2 ^ (- e)) / (2 * 2 ^ (- e)) =? 0) eqn:En; [exact I|].
  apply of_Z_nonneg. apply Z.div_pos; lia.
Qed.

Lemma or_zero_nonneg (x : float64) : nonneg_num x -> or_zero x = x.
Proof. destruct x as [[]|[]| |[] m e]; simpl; tauto. Qed.

(** ** Derived metrics *)

Lemma of_Z_60 : of_Z 60 = S754_finite false 8444249301319680 (-47).
Proof. reflexivity. Qed.

Lemma of_Z_5 : of_Z 5 = S754_finite false 5629499534213120 (-50).
Proof. reflexivity. Qed.

Lemma of_Z_100 : of_Z 100 = S754_finite false 7036874417766400 (-46).
Proof. reflexivity. Qed.

(** Seconds in the safe-integer range divided by 60 are a positive finite
    number of minutes. *)
Lemma minutes_finite (elapsed : Z) :
  0 < elapsed < 2 ^ 53 -> finite_pos (fdiv (of_Z elapsed) (of_Z 60)).
Proof.
  intros H. destruct (of_Z_finite elapsed H) as (m & e & E & Hm & He).
  rewrite E, of_Z_60. apply fdiv_finite; lia.
Qed.

(** The quotient [(chars / 5) / minutes] rounds to a number on which
    [|| 0] changes nothing. *)
Lemma speed_or_zero (chars elapsed : Z) :
  0 <= chars -> 0 < elapsed < 2 ^ 53 ->
  let q := fdiv (fdiv (of_Z chars) (of_Z 5)) (fdiv (of_Z elapsed) (of_Z 60)) in
  or_zero (Math_round q) = Math_round q.
Proof.
  intros Hc He q. apply or_zero_nonneg, Math_round_nonneg.
  apply fdiv_nonneg; [|apply minutes_finite; exact He].
  apply fdiv_nonneg; [apply of_Z_nonneg; exact Hc|].
  rewrite of_Z_5. exact I.
Qed.

Lemma accuracy_or_zero (correct typed : Z) :
  0 <= correct -> 0 < typed < 2 ^ 53 ->
  let q := fmul (fdiv (of_Z correct) (of_Z typed)) (of_Z 100) in
  or_zero (Math_round q) = Math_round q.
Proof.
  intros Hc Ht q. apply or_zero_nonneg, Math_round_nonneg.
  apply fmul_nonneg; [|rewrite of_Z_100; exact I].
  apply fdiv_nonneg; [apply of_Z_nonneg; exact Hc|].
  destruct (of_Z_finite typed Ht) as (m & e & E & _). rewrite E. exact I.
Qed.

(** The quotient is the binary64 one, not the real one: 41 correct
    characters in 8 seconds are 61.5 words per minute in the reals, which
    would round to 62; the engine's quotient is below one half and rounds
    to 61. *)
Example wpm_41_chars_8_seconds :
  float_to_Z (Math_round (fdiv (fdiv (of_Z 41) (of_Z 5)) (fdiv (of_Z 8) (of_Z 60))))
    = Some 61 /\
  (2 * (12 * 41) + 8) / (2 * 8) = 62.
Proof. split; vm_compute; reflexivity. Qed.


(** ** Rounding to an integer *)









(** ** The clock of a finished session *)

Lemma processKeystroke_starts (now : Z) (ch : jsstring) (s : Engine) :
  finished s = false ->
  started (processKeystroke now ch s) = true.
Proof.
  intros Hf. unfold processKeystroke. rewrite Hf.
  fold (ensure_started now s).
  destruct (ensure_started_keeps now s)
    as (_ & _ & _ & _ & _ & _ & _ & _ & Hfin & _ & Hst).
  rewrite Hf in Hfin.
  set (s1 := ensure_started now s) in *. clearbody s1.
  destruct (str_eqb ch KEY_BACKSPACE).
  - match goal with
    | |- context [notifyWordState ?t] =>
        destruct (notifyWordState_keeps t) as (_ & _ & _ & _ & _ & _ & _ & _ & _ & ->)
    end.
    exact Hst.
  - destruct (str_eqb ch [SPACE]).
    + match goal with
      | |- context [processInput now ?v ?t] =>
          assert (finished t = false) as Hft by exact Hfin;
          destruct (ends_with_space v) eqn:He;
            [destruct (processInput_commit now v t Hft He)
               as (_ & _ & _ & _ & _ & _ & _ & _ & _ & K)
            |destruct (processInput_buffer now v t Hft He)
               as (_ & _ & _ & _ & _ & _ & _ & _ & _ & K)];
            exact K
      end.
    + match goal with
      | |- context [notifyWordState ?t] =>
          destruct (notifyWordState_keeps t) as (_ & _ & _ & _ & _ & _ & _ & _ & _ & ->)
      end.
      exact Hst.
Qed.







(** C6: [getAccuracy] is exactly 100 when nothing was typed and otherwise
    [Math.round((correctChars / typedChars) * 100)], computed in binary64,
    the counters within the safe-integer range. *)
Theorem getAccuracy_formula (s : Engine) :
  0 <= correctChars s ->
  (typedChars s = 0 ->
     getAccuracy s = of_Z 100 /\ float_to_Z (getAccuracy s) = Some 100) /\
  (0 < typedChars s < 2 ^ 53 ->
     getAccuracy s =
       Math_round (fmul (fdiv (of_Z (correctChars s)) (of_Z (typedChars s)))
                        (of_Z 100))).
Proof.
  intros Hc. unfold getAccuracy. split.
  - intros ->. split; reflexivity.
  - intros Ht. assert ((typedChars s =? 0) = false) as -> by (apply Z.eqb_neq; lia).
    apply accuracy_or_zero; assumption.
Qed.

Lemma getAccuracy_formula_witness :
  typedChars engine_the = 0 /\
  float_to_Z (getAccuracy engine_the) = Some 100 /\
  correctChars engine_midrun = 4 /\ typedChars engine_midrun = 6 /\
  float_to_Z (getAccuracy engine_midrun) = Some 67.
Proof.
  destruct (getAccuracy_formula engine_the ltac:(cbn; lia)) as [H0 _].
  destruct (getAccuracy_formula engine_midrun ltac:(cbn; lia)) as [_ H1].
  split; [reflexivity|]. split; [apply H0; reflexivity|].
  split; [reflexivity|]. split; [reflexivity|].
  rewrite H1 by (cbn; lia). vm_compute. reflexivity.
Defined.

(** * Further properties of the engine *)

(** ** Shuffling and the generated words *)

Lemma swap_Permutation (a : list jsstring) (i j : nat) : swap a i j ≡ₚ a.
Proof.
  unfold swap. destruct (a !! i) as [x|] eqn:Ei; [|reflexivity].
  destruct (a !! j) as [y|] eqn:Ej; [|reflexivity].
  apply Permutation_insert_swap; assumption.
Qed.

Lemma shuffle_loop_Permutation (rnd : nat -> N) (i k : nat) (a : list jsstring) :
  shuffle_loop rnd i k a ≡ₚ a.
Proof.
  revert k a. induction i as [|i IH]; intros k a; simpl; [reflexivity|].
  rewrite IH. apply swap_Permutation.
Qed.

Lemma shuffleArray_perm (rnd : nat -> N) (arr : list jsstring) :
  shuffleArray rnd arr ≡ₚ arr.
Proof. apply shuffle_loop_Permutation. Qed.

(** X1: whatever the draws, [shuffleArray] returns a permutation of its
    argument: no word is lost, none is duplicated. *)
Theorem shuffleArray_Permutation (rnd : nat -> N) (arr : list jsstring) :
  shuffleArray rnd arr ≡ₚ arr.
Proof.
  unfold shuffleArray. apply shuffle_loop_Permutation.
Qed.

Lemma fill_from_pool_cycle (fuel : nat) (count : Z) (pool result r : list jsstring) :
  pool <> [] ->
  (forall i x, result !! i = Some x -> pool !! (i mod length pool)%nat = Some x) ->
  (length pool | length result)%nat ->
  fill_from_pool fuel count pool result = Some r ->
  forall i x, r !! i = Some x -> pool !! (i mod length pool)%nat = Some x.
Proof.
  intros Hp. revert result.
  induction fuel as [|fuel IH]; intros result Hres Hdiv; simpl.
  - destruct (len result <? count); simpl; [discriminate|].
    intros [= <-]. exact Hres.
  - destruct (len result <? count); simpl; [|intros [= <-]; exact Hres].
    apply IH.
    + intros i x Hi. apply lookup_app_Some in Hi as [Hi|[Hge Hi]].
      * apply Hres. exact Hi.
      * destruct Hdiv as [q Hq].
        assert (length pool <> 0)%nat
          by (destruct pool; [contradiction|simpl; lia]).
        replace i with ((i - length result) + q * length pool)%nat by lia.
        rewrite Nat.Div0.mod_add.
        rewrite Nat.mod_small; [exact Hi|].
        apply lookup_lt_Some in Hi. exact Hi.
    + rewrite length_app. apply Nat.divide_add_r; [exact Hdiv|reflexivity].
Qed.

(** X2: in english mode (any mode other than numbers and quotes), over a
    non-empty pool, [generateWords(count)] returns the shuffled pool
    repeated: word [i] of the result is word [i mod n] of the shuffled
    pool, [n] the size of the pool, and the shuffled pool is a permutation
    of the pool.  Every generated word is a word of the pool. *)
Theorem english_words_cycle (rnd : nat -> N) (md : jsstring)
  (pool : list jsstring) (count : Z) (fuel : nat) :
  md <> MODE_NUMBERS -> md <> MODE_QUOTES -> pool <> [] ->
  (fuel_for count <= fuel)%nat ->
  exists ws,
    generateWords fuel rnd md pool count = Some ws /\
    len ws = Z.max 0 count /\
    shuffleArray rnd pool ≡ₚ pool /\
    (forall i w, ws !! i = Some w ->
       shuffleArray rnd pool !! (i mod length pool)%nat = Some w) /\
    (forall w, w ∈ ws -> w ∈ pool).
Proof.
  intros H1 H2 Hp Hf.
  destruct (generateWords_total fuel rnd md pool count) as (ws & Hg & Hl);
    [unfold generation_returns; tauto|exact Hf|].
  exists ws. split; [exact Hg|]. split; [exact Hl|].
  split; [apply shuffleArray_perm|].
  assert (forall i w, ws !! i = Some w ->
            shuffleArray rnd pool !! (i mod length pool)%nat = Some w) as Hc.
  { unfold generateWords in Hg.
    apply str_eqb_neq in H1, H2. rewrite H1, H2 in Hg.
    destruct (fill_from_pool fuel count (shuffleArray rnd pool) []) as [r|] eqn:Er;
      [|discriminate].
    injection Hg as <-. intros i w Hi.
    rewrite <- (shuffleArray_length rnd pool).
    eapply (fill_from_pool_cycle fuel count (shuffleArray rnd pool) [] r).
    - intros E. apply Hp. apply length_zero_iff_nil.
      rewrite <- (shuffleArray_length rnd pool), E. reflexivity.
    - intros j x Hj. rewrite lookup_nil in Hj. discriminate.
    - exists 0%nat. reflexivity.
    - exact Er.
    - unfold slice0 in Hi. destruct (count <? 0);
        apply lookup_take_Some in Hi; apply Hi. }
  split; [exact Hc|].
  intros w Hw. apply list_elem_of_lookup in Hw as [i Hi].
  rewrite <- (shuffleArray_perm rnd pool).
  apply list_elem_of_lookup. eexists. apply Hc. exact Hi.
Qed.

Lemma english_words_cycle_witness :
  exists ws,
    generateWords 5 rnd0 MODE_ENGLISH [lit "a"; lit "b"] 5 = Some ws /\
    len ws = 5 /\
    (forall w, w ∈ ws -> w ∈ [lit "a"; lit "b"]).
Proof.
  destruct (english_words_cycle rnd0 MODE_ENGLISH [lit "a"; lit "b"] 5 5)
    as (ws & H1 & H2 & _ & _ & H5);
    [discriminate|discriminate|discriminate|reflexivity|].
  exists ws. split; [exact H1|]. split; [exact H2|exact H5].
Defined.

Lemma rand_floor_lt (rnd : nat -> N) (k : nat) (n : N) :
  (0 < n)%N -> (rand_floor rnd k n < n)%N.
Proof.
  intros Hn. unfold rand_floor, draw.
  assert (rnd k mod 2 ^ 53 < 2 ^ 53)%N as Hd by (apply N.mod_lt; discriminate).
  apply N.Div0.div_lt_upper_bound. nia.
Qed.

Lemma push_parts_elem (count : Z) (parts out : list jsstring) (w : jsstring) :
  w ∈ push_parts count parts out -> w ∈ out \/ w ∈ parts.
Proof.
  revert out. induction parts as [|p ps IH]; intros out; simpl.
  - auto.
  - destruct (len out <? count); [|auto].
    intros H. apply IH in H as [H|H].
    + apply elem_of_app in H as [H|H]; [auto|].
      apply list_elem_of_singleton in H. subst. right. left.
    + right. right. exact H.
Qed.

Lemma gen_quotes_elem (fuel : nat) (rnd : nat -> N) (count : Z) (k : nat)
  (out ws : list jsstring) :
  gen_quotes fuel rnd count k out = Some ws ->
  forall w, w ∈ ws -> w ∈ out \/ w ∈ quote_words.
Proof.
  revert k out. induction fuel as [|fuel IH]; intros k out; cbn [gen_quotes].
  - destruct (len out <? count); cbn [negb]; [discriminate|].
    intros [= <-]. auto.
  - destruct (len out <? count); cbn [negb]; [|intros [= <-]; auto].
    intros H w Hw. apply (IH _ _ H) in Hw as [Hw|Hw]; [|auto].
    apply push_parts_elem in Hw as [Hw|Hw]; [auto|]. right.
    unfold quote_words. apply list_elem_of_In, in_concat.
    exists (split_space (nth (N.to_nat (rand_floor rnd k 7)) sampleQuotes [])).
    split; [|apply list_elem_of_In; exact Hw].
    apply in_map, nth_In.
    pose proof (rand_floor_lt rnd k 7 eq_refl).
    change (length sampleQuotes) with 7%nat. lia.
Qed.

(** X3: in quotes mode every generated word is a word of one of the sample
    quotes; it is not empty and holds no space, so it can be typed and
    committed as one word. *)
Theorem quotes_words_from_quotes (rnd : nat -> N) (pool : list jsstring)
  (count : Z) (fuel : nat) (ws : list jsstring) (w : jsstring) :
  generateWords fuel rnd MODE_QUOTES pool count = Some ws ->
  w ∈ ws ->
  w ∈ quote_words /\ w <> [] /\ SPACE ∉ w.
Proof.
  intros Hg Hw. change (gen_quotes fuel rnd count 0 [] = Some ws) in Hg.
  destruct (gen_quotes_elem _ _ _ _ _ _ Hg w Hw) as [H|H].
  - apply elem_of_nil in H. contradiction.
  - split; [exact H|].
    assert (Forall (fun v : jsstring => v <> [] /\ SPACE ∉ v) quote_words) as HF.
    { apply (bool_decide_unpack _). vm_compute. exact I. }
    rewrite Forall_forall in HF. apply HF. exact H.
Qed.

Lemma quotes_words_from_quotes_witness :
  generateWords 3 rnd0 MODE_QUOTES [] 3 = Some [lit "To"; lit "be"; lit "or"] /\
  lit "be" ∈ quote_words /\ lit "be" <> [] /\ SPACE ∉ lit "be".
Proof.
  split; [reflexivity|].
  apply (quotes_words_from_quotes rnd0 [] 3 3 [lit "To"; lit "be"; lit "or"]).
  - reflexivity.
  - apply (bool_decide_unpack _). vm_compute. exact I.
Defined.

Lemma uint_units_digits (d : Decimal.uint) :
  Forall (fun c => (48 <= c <= 57)%N) (uint_units d).
Proof.
  induction d; simpl; constructor; try assumption; lia.
Qed.

Lemma uint_units_nil (d : Decimal.uint) : uint_units d = [] -> d = Decimal.Nil.
Proof. destruct d; simpl; try discriminate. reflexivity. Qed.

Lemma String_of_N_nonempty (n : N) : String_of_N n <> [].
Proof.
  unfold String_of_N. intros H. apply uint_units_nil in H.
  destruct n as [|p]; [discriminate|].
  exact (DecimalPos.Unsigned.to_uint_nonnil p H).
Qed.

Lemma gen_numbers_elem (rnd : nat -> N) (n k : nat) (out : list jsstring)
  (w : jsstring) :
  w ∈ gen_numbers rnd n k out ->
  w ∈ out \/ exists v, (v < 9100)%N /\ w = String_of_N v.
Proof.
  revert k out. induction n as [|n IH]; intros k out; simpl; [auto|].
  intros H. apply IH in H as [H|H]; [|auto].
  apply elem_of_app in H as [H|H]; [auto|].
  apply list_elem_of_singleton in H. right.
  pose proof (rand_floor_lt rnd (S k) 9000 eq_refl).
  pose proof (rand_floor_lt rnd (S k) 100 eq_refl).
  pose proof (rand_floor_lt rnd (S k) 10 eq_refl).
  destruct (gt_0_8 (draw rnd k)); [|destruct (gt_0_5 (draw rnd k))];
    eexists; (split; [|exact H]); lia.
Qed.

(** X4: in numbers mode every generated token is the decimal numeral of a
    number below 9100: it is not empty and consists of digits only. *)
Theorem numbers_tokens_are_numerals (rnd : nat -> N) (pool : list jsstring)
  (count : Z) (fuel : nat) (ws : list jsstring) (w : jsstring) :
  generateWords fuel rnd MODE_NUMBERS pool count = Some ws ->
  w ∈ ws ->
  (exists v, (v < 9100)%N /\ w = String_of_N v) /\
  w <> [] /\
  Forall (fun c => (48 <= c <= 57)%N) w.
Proof.
  intros Hg Hw.
  change (Some (gen_numbers rnd (Z.to_nat count) 0 []) = Some ws) in Hg.
  injection Hg as <-.
  apply gen_numbers_elem in Hw as [Hw|(v & Hv & ->)].
  - apply elem_of_nil in Hw. contradiction.
  - split; [eauto|]. split; [apply String_of_N_nonempty|apply uint_units_digits].
Qed.

Lemma numbers_tokens_are_numerals_witness :
  generateWords 0 rnd0 MODE_NUMBERS [] 2 = Some [lit "0"; lit "0"] /\
  (exists v, (v < 9100)%N /\ lit "0" = String_of_N v).
Proof.
  split; [reflexivity|].
  apply (numbers_tokens_are_numerals rnd0 [] 2 0 [lit "0"; lit "0"] (lit "0")).
  - reflexivity.
  - apply (bool_decide_unpack _). vm_compute. exact I.
Defined.

(** ** Lifecycle and accounting invariants *)

Lemma history_credit_app (h k : list WordResult) :
  history_credit (h ++ k) = history_credit h + history_credit k.
Proof.
  unfold history_credit. induction h as [|r h IH]; simpl; [lia|].
  rewrite IH. lia.
Qed.

Lemma history_credit_snoc (h : list WordResult) (r : WordResult) :
  history_credit (h ++ [r]) = history_credit h + entry_credit r.
Proof. rewrite history_credit_app. unfold history_credit at 2. simpl. lia. Qed.

Ltac engine_cbn :=
  cbn -[trim count_matches getCurrentWord len str_eqb ends_with_space getWPM
        getAccuracy getRawSpeed getCurrentWordState Math_round Z.add Z.sub
        Z.div Z.max Z.ltb Z.leb drop_last fgtb history_credit].

Ltac engine_cases := engine_cbn; repeat (break_if; engine_cbn).

Lemma Life_start (now : Z) (s : Engine) : Life s -> Life (start now s).
Proof.
  intros HL. unfold start, _startHistoryInterval.
  destruct (started s) eqn:Es; [exact HL|].
  destruct HL as [H1 H2 H3 H4 H5 H6 H7].
  engine_cases; constructor; engine_cbn; try assumption; try reflexivity;
    try discriminate; try congruence.
Qed.

Lemma Life_finish (now : Z) (s : Engine) : Life s -> Life (finish now s).
Proof.
  intros HL. unfold finish.
  destruct (finished s) eqn:Ef; [exact HL|].
  destruct HL as [H1 H2 H3 H4 H5 H6 H7].
  assert (length (wordHistory s) = currentWordIndex s) as H5'
    by (destruct H5 as [H5|[H5 _]]; congruence).
  unfold emit.
  engine_cases; constructor; engine_cbn; try assumption; try reflexivity;
    try discriminate; try congruence;
    rewrite ?length_app, ?history_credit_snoc; unfold entry_credit;
    cbn [wr_correct wr_perfect length]; lia.
Qed.

Lemma Life_ensure_started (now : Z) (s : Engine) :
  Life s -> Life (ensure_started now s).
Proof.
  intros HL. unfold ensure_started.
  destruct (negb (started s)); [apply Life_start|]; exact HL.
Qed.

Lemma Life_processInput (now : Z) (value : jsstring) (s : Engine) :
  Life s -> Life (processInput now value s).
Proof.
  intros HL. unfold processInput.
  destruct (finished s) eqn:Ef; [exact HL|].
  fold (ensure_started now s).
  pose proof (Life_ensure_started now s HL) as HL1.
  destruct (ensure_started_keeps now s)
    as (_ & _ & _ & _ & _ & _ & _ & _ & Hfin & _ & Hst).
  rewrite Ef in Hfin.
  set (s1 := ensure_started now s) in *. clearbody s1. clear HL Ef s.
  destruct HL1 as [H1 H2 H3 H4 H5 H6 H7].
  assert (length (wordHistory s1) = currentWordIndex s1) as H5'
    by (destruct H5 as [H5|[H5 _]]; congruence).
  unfold notifyWordState, emit, space_credit. rewrite H7.
  engine_cases; constructor; engine_cbn; try assumption; try reflexivity;
    try discriminate; try congruence;
    rewrite ?length_app, ?history_credit_snoc; unfold entry_credit;
    cbn [wr_correct wr_perfect length]; lia.
Qed.

Lemma Life_processKeystroke (now : Z) (ch : jsstring) (s : Engine) :
  Life s -> Life (processKeystroke now ch s).
Proof.
  intros HL. unfold processKeystroke.
  destruct (finished s) eqn:Ef; [exact HL|].
  fold (ensure_started now s).
  pose proof (Life_ensure_started now s HL) as HL1.
  destruct (ensure_started_keeps now s)
    as (_ & _ & _ & _ & _ & _ & _ & _ & Hfin & _ & Hst).
  rewrite Ef in Hfin.
  set (s1 := ensure_started now s) in *. clearbody s1. clear HL Ef s.
  assert (forall v, Life (set_currentInput v s1)) as Hin.
  { intros v. destruct HL1 as [H1 H2 H3 H4 H5 H6 H7].
    constructor; engine_cbn; try assumption. congruence. }
  destruct (str_eqb ch KEY_BACKSPACE).
  - specialize (Hin (drop_last (currentInput s1))).
    destruct Hin as [H1 H2 H3 H4 H5 H6 H7]. unfold notifyWordState, emit.
    engine_cases; constructor; engine_cbn; assumption.
  - assert (Life (set_typedChars (typedChars (set_currentInput (currentInput s1 ++ ch) s1) + 1)
                    (set_currentInput (currentInput s1 ++ ch) s1))) as HL2.
    { specialize (Hin (currentInput s1 ++ ch)).
      destruct Hin as [H1 H2 H3 H4 H5 H6 H7].
      constructor; engine_cbn; try assumption. congruence. }
    destruct (str_eqb ch [SPACE]).
    + apply Life_processInput. exact HL2.
    + destruct HL2 as [H1 H2 H3 H4 H5 H6 H7]. unfold notifyWordState, emit.
      engine_cases; constructor; engine_cbn; assumption.
Qed.

Lemma Life_addHistoryPoint (w : float64) (s : Engine) :
  Life s -> Life (_addHistoryPoint w s).
Proof.
  intros [H1 H2 H3 H4 H5 H6 H7]. unfold _addHistoryPoint.
  constructor; engine_cbn; assumption.
Qed.

Lemma Life_tick (now : Z) (s : Engine) : Life s -> Life (tick now s).
Proof.
  intros HL. unfold tick.
  destruct (started s) eqn:Es; [|exact HL].
  destruct (finished s) eqn:Ef; [exact HL|]. cbn [negb orb].
  match goal with
  | |- Life (if _ then finish now ?t else ?t) =>
      assert (Life t) as Ht; [|destruct (_ <=? 0); [apply Life_finish|]; exact Ht]
  end.
  apply Life_addHistoryPoint.
  destruct HL as [H1 H2 H3 H4 H5 H6 H7]. unfold emit.
  engine_cases; constructor; engine_cbn; try assumption; congruence.
Qed.

Lemma Life_historyIntervalFires (now : Z) (s : Engine) :
  Life s -> Life (historyIntervalFires now s).
Proof.
  intros HL. unfold historyIntervalFires.
  destruct (historyInterval s); [|exact HL].
  apply Life_addHistoryPoint. exact HL.
Qed.

Lemma Life_resetTest (fuel : nat) (rnd : nat -> N) (now : Z) (s s' : Engine) :
  spaceCountsAsChar s = true -> resetTest fuel rnd now s = Some s' -> Life s'.
Proof.
  intros Hsp H. pose proof (resetTest_fresh _ _ _ _ _ H) as Hfr.
  apply resetTest_fields in H.
  destruct H as (_ & _ & _ & _ & _ & _ & _ & _ & _ & _ & _ & _ & _ & _ & _ & _ & _ & Hs).
  pose proof Hfr as (F1 & F2 & F3 & F4 & F5 & F6 & F7 & F8 & F9 & F10).
  constructor; try congruence.
  - left. rewrite F9, F5. reflexivity.
  - rewrite F8, F9. reflexivity.
Qed.

Lemma Life_exec (e : Env) (op : Op) (s s' : Engine) :
  Life s -> exec e op s = Some s' -> Life s'.
Proof.
  intros H. destruct op; cbn; try (intros [= <-]).
  - apply Life_start; assumption.
  - apply Life_processInput; assumption.
  - apply Life_processKeystroke; assumption.
  - apply Life_tick; assumption.
  - apply Life_finish; assumption.
  - apply Life_resetTest. apply H.
  - unfold setMode. apply Life_resetTest. apply H.
  - unfold setTimeLimit. apply Life_resetTest. apply H.
  - apply Life_historyIntervalFires; assumption.
  - destruct H as [H1 H2 H3 H4 H5 H6 H7]. constructor; assumption.
Qed.

Lemma reachable_Life (s : Engine) : reachable s -> Life s.
Proof.
  induction 1 as [fuel rnd now opts stored s H | e op s s' _ IH H].
  - unfold construct in H. eapply Life_resetTest; [|exact H]. reflexivity.
  - eapply Life_exec; eassumption.
Qed.

(** X5: in every reachable state that is not finished, [wordHistory] holds
    exactly one entry per committed word, [currentWordIndex] of them; once
    finished it holds at most one more, the uncommitted input. *)
Theorem one_entry_per_committed_word (s : Engine) :
  reachable s ->
  (finished s = false -> length (wordHistory s) = currentWordIndex s) /\
  (currentWordIndex s <= length (wordHistory s) <= S (currentWordIndex s))%nat.
Proof.
  intros Hr. destruct (life_history s (reachable_Life s Hr)) as [H|[Hf H]].
  - split; [intros _; exact H|lia].
  - split; [congruence|lia].
Qed.

Lemma one_entry_per_committed_word_witness :
  currentWordIndex engine_three = 3%nat /\
  length (wordHistory engine_three) = 3%nat /\
  length (wordHistory engine_done) = S (currentWordIndex engine_done).
Proof.
  assert (reachable engine_three) as H3.
  { apply (run_reachable run_three engine_the).
    - apply (reach_construct 3 rnd0 1000 opts_the None). reflexivity.
    - reflexivity. }
  destruct (one_entry_per_committed_word engine_three H3) as [H _].
  split; [reflexivity|]. split; [exact (H eq_refl)|reflexivity].
Defined.

(** X6: in every reachable state [correctChars] is exactly the credit the
    entries of [wordHistory] record: the [correct] count of each entry, and
    one more for the space of each perfect word. *)
Theorem correctChars_is_recorded_credit (s : Engine) :
  reachable s -> correctChars s = history_credit (wordHistory s).
Proof. intros Hr. apply life_credit, reachable_Life, Hr. Qed.

Lemma correctChars_is_recorded_credit_witness :
  correctChars engine_three = 9 /\
  map entry_credit (wordHistory engine_three) = [4; 4; 1] /\
  correctChars engine_three = history_credit (wordHistory engine_three).
Proof.
  split; [reflexivity|]. split; [reflexivity|].
  apply correctChars_is_recorded_credit.
  apply (run_reachable run_three engine_the).
  - apply (reach_construct 3 rnd0 1000 opts_the None). reflexivity.
  - reflexivity.
Defined.

(** A call that is no reset and ends in an idle session began in one and
    touched neither the samples nor the time. *)
Lemma exec_ends_idle (e : Env) (op : Op) (s s' : Engine) :
  historyInterval s = started s ->
  resets op = false ->
  exec e op s = Some s' ->
  started s' = false -> finished s' = false ->
  wpmHistory s' = wpmHistory s /\ timeLeft s' = timeLeft s /\
  timeLimit s' = timeLimit s /\ started s = false /\ finished s = false.
Proof.
  intros Hh Hop H Hs' Hf'.
  destruct op; try discriminate; cbn in H; injection H as <-.
  - destruct (start_keeps (env_now e) s) as (_ & _ & _ & _ & _ & _ & _ & _ & _ & _ & K).
    congruence.
  - destruct (finished s) eqn:Hf.
    + unfold processInput in Hf'. rewrite Hf in Hf'. congruence.
    + destruct (ends_with_space value) eqn:He;
        [destruct (processInput_commit (env_now e) value s Hf He)
           as (_ & _ & _ & _ & _ & _ & _ & _ & _ & K)
        |destruct (processInput_buffer (env_now e) value s Hf He)
           as (_ & _ & _ & _ & _ & _ & _ & _ & _ & K)]; congruence.
  - destruct (finished s) eqn:Hf.
    + unfold processKeystroke in Hf'. rewrite Hf in Hf'. congruence.
    + pose proof (processKeystroke_starts (env_now e) ch s Hf). congruence.
  - unfold tick in *. destruct (started s) eqn:Hs; cbn [negb orb] in *.
    + destruct (finished s) eqn:Hf; [congruence|].
      match type of Hf' with
      | finished (if ?c then finish ?n ?t else ?t) = false =>
          destruct c;
            [rewrite finish_sets_finished in Hf'; discriminate|];
            assert (started t = true) as K
              by (unfold _addHistoryPoint, emit; destruct (onTick _); exact Hs)
      end.
      congruence.
    + repeat split; try reflexivity; assumption.
  - rewrite finish_sets_finished in Hf'. discriminate.
  - unfold historyIntervalFires in *. rewrite Hh in *.
    destruct (started s) eqn:Hs.
    + unfold _addHistoryPoint in Hs'. cbn in Hs'. congruence.
    + repeat split; try reflexivity; assumption.
  - cbn in *. repeat split; try reflexivity; assumption.
Qed.

Lemma resetTest_idle_seed (fuel : nat) (rnd : nat -> N) (now : Z) (s s' : Engine) :
  resetTest fuel rnd now s = Some s' -> idle_seed s'.
Proof.
  intros H. apply resetTest_fields in H.
  destruct H as (_ & _ & _ & _ & _ & _ & _ & Htl & _ & _ & _ & Hh & _ & Hl & _).
  split; [exact Hh|congruence].
Qed.

Lemma reachable_idle_seed (s : Engine) :
  reachable s -> started s = false -> finished s = false -> idle_seed s.
Proof.
  induction 1 as [fuel rnd now opts stored s H | e op s s' Hr IH H]; intros Hs Hf.
  - unfold construct in H. eapply resetTest_idle_seed; exact H.
  - destruct (resets op) eqn:Hop.
    + destruct op; try discriminate; cbn in H.
      * eapply resetTest_idle_seed; exact H.
      * unfold setMode in H. eapply resetTest_idle_seed; exact H.
      * unfold setTimeLimit in H. eapply resetTest_idle_seed; exact H.
    + destruct (exec_ends_idle e op s s' (life_timer s (reachable_Life s Hr)) Hop H Hs Hf)
        as (E1 & E2 & E3 & E4 & E5).
      destruct (IH E4 E5) as [I1 I2].
      split; congruence.
Qed.

(** X7: a reachable session that is neither started nor finished is as
    [resetTest] left it: at the first word, with empty input, both counters
    0, no entry in [wordHistory], no timestamps, the sampling timer off,
    [wpmHistory] holding the five seeded zeros and [timeLeft] equal to
    [timeLimit].  The clock only runs once something was entered. *)
Theorem idle_session_is_fresh (s : Engine) :
  reachable s -> started s = false -> finished s = false ->
  fresh s /\ wpmHistory s = replicate 5 fzero /\ timeLeft s = timeLimit s.
Proof.
  intros Hr Hs Hf. split.
  - exact (life_idle s (reachable_Life s Hr) Hs Hf).
  - exact (reachable_idle_seed s Hr Hs Hf).
Qed.

Lemma idle_session_is_fresh_witness :
  exists s,
    run [(env0, OpProcessInput (lit "the ")); (env0, OpTick);
         (env0, OpSetMode MODE_QUOTES); (env0, OpTick); (env0, OpHistoryInterval)]
        engine_the = Some s /\
    fresh s /\ wpmHistory s = replicate 5 fzero /\ timeLeft s = timeLimit s.
Proof.
  eexists. split; [vm_compute; reflexivity|].
  apply idle_session_is_fresh; [|reflexivity|reflexivity].
  apply (run_reachable
           [(env0, OpProcessInput (lit "the ")); (env0, OpTick);
            (env0, OpSetMode MODE_QUOTES); (env0, OpTick); (env0, OpHistoryInterval)]
           engine_the).
  - apply (reach_construct 3 rnd0 1000 opts_the None). reflexivity.
  - vm_compute. reflexivity.
Defined.

(** X8: in every reachable state the sampling timer [_historyInterval] is
    armed exactly while [started] is set; a started session has its
    [startedAt], and a session that is not finished has no [endedAt]. *)
Theorem sampling_timer_follows_started (s : Engine) :
  reachable s ->
  historyInterval s = started s /\
  (started s = true -> startedAt s <> None) /\
  (finished s = false -> endedAt s = None).
Proof.
  intros Hr. pose proof (reachable_Life s Hr) as [H1 H2 H3 _ _ _ _].
  repeat split; assumption.
Qed.

Lemma sampling_timer_follows_started_witness :
  historyInterval engine_three = true /\ started engine_three = true /\
  historyInterval engine_done = false /\ started engine_done = false.
Proof.
  assert (reachable engine_three) as H3.
  { apply (run_reachable run_three engine_the).
    - apply (reach_construct 3 rnd0 1000 opts_the None). reflexivity.
    - reflexivity. }
  destruct (sampling_timer_follows_started engine_three H3) as (H & _ & _).
  split; [rewrite H; reflexivity|]. repeat split; reflexivity.
Defined.

(** ** Deleting *)

Lemma drop_last_snoc (l : jsstring) (c : N) : drop_last (l ++ [c]) = l.
Proof.
  unfold drop_last. rewrite length_app. simpl.
  replace (length l + 1 - 1)%nat with (length l) by lia.
  apply take_app_length.
Qed.

Lemma processKeystroke_backspace (now : Z) (s : Engine) :
  finished s = false ->
  let s' := processKeystroke now KEY_BACKSPACE s in
  currentInput s' = drop_last (currentInput s) /\
  typedChars s' = typedChars s /\ correctChars s' = correctChars s /\
  currentWordIndex s' = currentWordIndex s /\ wordHistory s' = wordHistory s /\
  words s' = words s /\ finished s' = false /\ started s' = true.
Proof.
  intros Hf. cbn zeta. unfold processKeystroke. rewrite Hf.
  fold (ensure_started now s).
  destruct (ensure_started_keeps now s)
    as (Ht & Hc & Hw & Hi & Hin & Hws & Hsp & Hh & Hfin & Hu & Hst).
  set (s1 := ensure_started now s) in *.
  assert (str_eqb KEY_BACKSPACE KEY_BACKSPACE = true) as ->
    by (apply str_eqb_eq; reflexivity).
  match goal with
  | |- context [notifyWordState ?t] =>
      destruct (notifyWordState_keeps t)
        as (Kt & Kc & Kw & Ki & Kin & Kws & Ksp & Kh & Kfin & Kst)
  end.
  rewrite Kt, Kc, Kw, Ki, Kin, Kws, Kfin, Kst. cbn.
  rewrite Ht, Hc, Hw, Hi, Hin, Hws, Hfin, Hf, Hst. repeat split; reflexivity.
Qed.

(** X9: on a session that is not finished, [processKeystroke('Backspace')]
    removes the last character of [currentInput] (an empty input stays
    empty) and changes no counter; it starts the session if it was idle.
    A character typed and then deleted leaves [currentInput] as it was and
    [typedChars] one higher: deleting refunds nothing.  When the input
    event that follows the key, as main.js wires them, hands the shortened
    buffer to [processInput], nothing more changes as long as that buffer
    does not end in a space; when it does, [processInput] commits it as a
    word: the cursor moves on and the input is emptied. *)
Theorem backspace_deletes_without_refund (now : Z) (s : Engine) :
  finished s = false ->
  let s' := processKeystroke now KEY_BACKSPACE s in
  currentInput s' = drop_last (currentInput s) /\
  typedChars s' = typedChars s /\ correctChars s' = correctChars s /\
  started s' = true /\
  (currentInput s = [] -> currentInput s' = []) /\
  (forall c, c <> SPACE ->
     let s2 := processKeystroke now KEY_BACKSPACE (processKeystroke now [c] s) in
     currentInput s2 = currentInput s /\ typedChars s2 = typedChars s + 1) /\
  (ends_with_space (drop_last (currentInput s)) = false ->
     let s3 := processInput now (drop_last (currentInput s)) s' in
     currentInput s3 = drop_last (currentInput s) /\ typedChars s3 = typedChars s /\
     correctChars s3 = correctChars s /\ currentWordIndex s3 = currentWordIndex s) /\
  (ends_with_space (drop_last (currentInput s)) = true ->
     let s3 := processInput now (drop_last (currentInput s)) s' in
     currentInput s3 = [] /\ currentWordIndex s3 = S (currentWordIndex s) /\
     length (wordHistory s3) = S (length (wordHistory s))).
Proof.
  intros Hf s'.
  destruct (processKeystroke_backspace now s Hf)
    as (B1 & B2 & B3 & B4 & B5 & _ & B7 & B8).
  fold s' in B1, B2, B3, B4, B5, B7, B8.
  split; [exact B1|]. split; [exact B2|]. split; [exact B3|]. split; [exact B8|].
  split; [intros E; rewrite B1, E; reflexivity|]. split; [|split].
  - intros c Hc s2.
    destruct (processKeystroke_char now c s Hf Hc) as (A1 & _ & A3 & _ & _ & _ & A7).
    destruct (processKeystroke_backspace now (processKeystroke now [c] s) A7)
      as (C1 & C2 & _).
    fold s2 in C1, C2. rewrite C1, C2, A3, A1, drop_last_snoc. split; reflexivity.
  - intros He s3.
    destruct (processInput_buffer now (drop_last (currentInput s)) s' B7 He)
      as (D1 & D2 & _ & D4 & D5 & _).
    fold s3 in D1, D2, D4, D5. rewrite D5, D1, D2, D4, B1, B2, B3, B4.
    repeat split; try reflexivity. lia.
  - intros He s3.
    destruct (processInput_commit now (drop_last (currentInput s)) s' B7 He)
      as (_ & _ & D3 & D4 & D5 & _).
    fold s3 in D3, D4, D5. rewrite D5, D4, D3, B4, B5, length_app.
    repeat split; try reflexivity. simpl. lia.
Qed.

(** Mid-run, "th" becomes "t" at no refund.  And on the fresh session: the
    buffer " x" shortened to " " is committed by the input event. *)
Lemma backspace_deletes_without_refund_witness :
  currentInput engine_midrun = lit "th" /\ typedChars engine_midrun = 6 /\
  currentInput (processKeystroke 2600 KEY_BACKSPACE engine_midrun) = lit "t" /\
  typedChars (processKeystroke 2600 KEY_BACKSPACE engine_midrun) = 6 /\
  currentInput (processInput 1000 (lit " x") engine_the) = lit " x" /\
  currentWordIndex
    (processInput 1100 (lit " ")
       (processKeystroke 1100 KEY_BACKSPACE (processInput 1000 (lit " x") engine_the)))
    = 1%nat.
Proof.
  destruct (backspace_deletes_without_refund 2600 engine_midrun eq_refl)
    as (H1 & H2 & _).
  destruct (backspace_deletes_without_refund 1100
              (processInput 1000 (lit " x") engine_the) eq_refl)
    as (_ & _ & _ & _ & _ & _ & _ & H8).
  split; [reflexivity|]. split; [reflexivity|].
  split; [exact H1|]. split; [exact H2|]. split; [reflexivity|].
  exact (proj1 (proj2 (H8 eq_refl))).
Defined.

(** ** Credit *)

Lemma count_matches_le_target (typed target : jsstring) :
  count_matches typed target <= len target.
Proof.
  rewrite count_matches_positions. unfold matching_positions, len.
  pose proof (length_filter (fun i => typed !! i = target !! i)
                (seq 0 (Nat.min (length typed) (length target)))) as H.
  rewrite length_seq in H. lia.
Qed.

(** X10: a commit earns at most [target.length + 1], and earns it exactly
    when the trimmed input equals the target: a mistyped word never earns
    the credit of the space. *)
Theorem full_credit_iff_exact (now : Z) (value : jsstring) (s : Engine) :
  reachable s ->
  finished s = false ->
  ends_with_space value = true ->
  let target := getCurrentWord s in
  let s' := processInput now value s in
  correctChars s <= correctChars s' <= correctChars s + (len target + 1) /\
  (correctChars s' = correctChars s + (len target + 1) <-> trim value = target).
Proof.
  intros Hr Hf He target s'.
  destruct (processInput_commit now value s Hf He) as (_ & Kc & _).
  fold target s' in Kc.
  assert (space_credit s = 1) as Hsc.
  { unfold space_credit. rewrite (inv_space_counts s (reachable_Inv s Hr)). reflexivity. }
  rewrite Hsc in Kc. unfold commit_credit in Kc.
  pose proof (count_matches_bounds (trim value) target) as [Hlo _].
  pose proof (count_matches_le_target (trim value) target) as Hhi.
  pose proof (len_nonneg target).
  destruct (str_eqb (trim value) target) eqn:E.
  - apply str_eqb_eq in E. split; [lia|]. split; [intros _; exact E|intros _; lia].
  - apply str_eqb_neq in E. split; [lia|]. split; [lia|contradiction].
Qed.

Lemma full_credit_iff_exact_witness :
  correctChars (processInput 1000 (lit "the ") engine_the) = 4 /\
  correctChars (processInput 1000 (lit "thx ") engine_the) = 2.
Proof.
  destruct (full_credit_iff_exact 1000 (lit "the ") engine_the
              (reach_construct 3 rnd0 1000 opts_the None engine_the eq_refl)
              eq_refl eq_refl) as [_ [_ H]].
  split; [exact (H eq_refl)|reflexivity].
Defined.

(** X11: [currentWordIndex] is not held below [words.length].  Once the
    words are used up the target is the empty string and commits go on: a
    lone separator is then a perfect word worth 1, and any other word
    earns nothing. *)
Theorem commits_past_the_last_word (now : Z) (value : jsstring) (s : Engine) :
  reachable s ->
  finished s = false ->
  (length (words s) <= currentWordIndex s)%nat ->
  ends_with_space value = true ->
  let s' := processInput now value s in
  getCurrentWord s = [] /\
  currentWordIndex s' = S (currentWordIndex s) /\
  (length (words s') < currentWordIndex s')%nat /\
  (trim value = [] -> correctChars s' = correctChars s + 1) /\
  (trim value <> [] -> correctChars s' = correctChars s).
Proof.
  intros Hr Hf Hle He s'.
  assert (getCurrentWord s = []) as Hg.
  { unfold getCurrentWord. rewrite lookup_ge_None_2 by exact Hle. reflexivity. }
  destruct (processInput_commit now value s Hf He)
    as (_ & Kc & _ & Ki & _ & Kw & _).
  fold s' in Kc, Ki, Kw. rewrite Hg in Kc.
  assert (space_credit s = 1) as Hsc.
  { unfold space_credit. rewrite (inv_space_counts s (reachable_Inv s Hr)). reflexivity. }
  rewrite Hsc in Kc. unfold commit_credit in Kc.
  split; [exact Hg|]. split; [exact Ki|]. split; [rewrite Ki, Kw; lia|].
  split.
  - intros E. rewrite E in Kc. exact Kc.
  - intros E. apply str_eqb_neq in E. rewrite E in Kc.
    rewrite Kc. unfold count_matches. rewrite Nat.min_0_r. simpl. lia.
Qed.

Lemma commits_past_the_last_word_witness :
  length (words engine_three) = 3%nat /\ currentWordIndex engine_three = 3%nat /\
  correctChars engine_three = 9 /\
  correctChars (processInput 4000 (lit " ") engine_three) = 10 /\
  currentWordIndex (processInput 4000 (lit " ") engine_three) = 4%nat.
Proof.
  assert (reachable engine_three) as H3.
  { apply (run_reachable run_three engine_the).
    - apply (reach_construct 3 rnd0 1000 opts_the None). reflexivity.
    - reflexivity. }
  destruct (commits_past_the_last_word 4000 (lit " ") engine_three H3
              eq_refl ltac:(reflexivity) eq_refl) as (_ & Hi & _ & Hc & _).
  split; [reflexivity|]. split; [reflexivity|]. split; [reflexivity|].
  split; [exact (Hc eq_refl)|exact Hi].
Defined.

(** ** The countdown *)

Lemma finish_fields (now : Z) (s : Engine) :
  finished s = false ->
  let s' := finish now s in
  finished s' = true /\ started s' = false /\ endedAt s' = Some now /\
  startedAt s' = startedAt s /\ historyInterval s' = false /\
  typedChars s' = typedChars s /\ correctChars s' = correctChars s /\
  currentWordIndex s' = currentWordIndex s /\ currentInput s' = currentInput s /\
  timeLimit s' = timeLimit s /\ timeLeft s' = timeLeft s /\
  wpmHistory s' = wpmHistory s /\
  wordHistory s' =
    wordHistory s ++
      (if 0 <? len (currentInput s)
       then [mkWordResult (words s !! currentWordIndex s) (currentInput s) 0 None 0]
       else []).
Proof.
  intros Hf. cbn zeta. unfold finish, emit. rewrite Hf.
  engine_cases; rewrite ?app_nil_r; repeat split; reflexivity.
Qed.








(** ** The state shown for the current word *)

Lemma char_state_correct (target typed : jsstring) (i : nat) :
  (negb (str_eqb (char_at typed i) []) && str_eqb (char_at typed i) (char_at target i))
    = true
  <-> (i < Nat.min (length typed) (length target))%nat /\ typed !! i = target !! i.
Proof.
  unfold char_at. rewrite andb_true_iff, negb_true_iff, str_eqb_neq, str_eqb_eq.
  destruct (typed !! i) as [c|] eqn:Et, (target !! i) as [d|] eqn:Eg.
  - apply lookup_lt_Some in Et as Lt'. apply lookup_lt_Some in Eg as Lg.
    split.
    + intros [_ [= ->]]. split; [lia|reflexivity].
    + intros [_ [= ->]]. split; [discriminate|reflexivity].
  - split; [intros [_ H]; discriminate|intros [_ H]; discriminate].
  - split; [intros [H _]; contradiction|intros [_ H]; discriminate].
  - apply lookup_ge_None in Et. split; [intros [H _]; contradiction|lia].
Qed.

Lemma filter_ext_in (P Q : nat -> Prop) `{!forall i, Decision (P i)}
  `{!forall i, Decision (Q i)} (l : list nat) :
  (forall i, i ∈ l -> P i <-> Q i) -> filter P l = filter Q l.
Proof.
  induction l as [|i l IH]; intros Hall; [reflexivity|].
  rewrite !filter_cons.
  assert (P i <-> Q i) as Hi by (apply Hall; left).
  rewrite IH by (intros j Hj; apply Hall; right; exact Hj).
  destruct (decide (P i)), (decide (Q i)); tauto.
Qed.

Lemma filter_none (P : nat -> Prop) `{!forall i, Decision (P i)} (l : list nat) :
  (forall i, i ∈ l -> ~ P i) -> filter P l = [].
Proof.
  induction l as [|i l IH]; intros Hall; [reflexivity|].
  rewrite filter_cons_False by (apply Hall; left).
  apply IH. intros j Hj. apply Hall. right. exact Hj.
Qed.

Lemma filter_all (P : nat -> Prop) `{!forall i, Decision (P i)} (l : list nat) :
  (forall i, i ∈ l -> P i) -> filter P l = l.
Proof.
  induction l as [|i l IH]; intros Hall; [reflexivity|].
  rewrite filter_cons_True by (apply Hall; left).
  f_equal. apply IH. intros j Hj. apply Hall. right. exact Hj.
Qed.

Lemma filter_below (Q : nat -> Prop) `{!forall i, Decision (Q i)} (m d : nat) :
  filter (fun i => (i < m)%nat /\ Q i) (seq 0 (m + d)) = filter Q (seq 0 m).
Proof.
  rewrite seq_app, filter_app. simpl.
  rewrite (filter_none (fun i => (i < m)%nat /\ Q i) (seq m d)).
  - rewrite app_nil_r. apply filter_ext_in.
    intros i Hi. apply list_elem_of_In, in_seq in Hi.
    split; [intros [_ Hq]; exact Hq|intros Hq; split; [lia|exact Hq]].
  - intros i Hi [Hlt _]. apply list_elem_of_In, in_seq in Hi. lia.
Qed.

(** X14: the state handed to [onUpdateWordState] has one [chars] entry per
    position of the longer of target and input, [isComplete] exactly when
    the input equals the target, and a [correctCount] equal to the number
    of positions where input and target agree: the count [processInput]
    would credit if the word were committed mistyped. *)
Theorem word_state_counts_matches (s : Engine) :
  let ws := getCurrentWordState s in
  ws_correctCount ws = count_matches (currentInput s) (getCurrentWord s) /\
  length (ws_chars ws)
    = Nat.max (length (getCurrentWord s)) (length (currentInput s)) /\
  (ws_isComplete ws = true <-> currentInput s = getCurrentWord s) /\
  (currentInput s = getCurrentWord s -> ws_correctCount ws = len (getCurrentWord s)).
Proof.
  cbn zeta. unfold getCurrentWordState. cbn [ws_correctCount ws_chars ws_isComplete].
  set (target := getCurrentWord s). set (typed := currentInput s).
  assert (len (filter (fun c => cs_correct c = true) (word_chars target typed))
          = count_matches typed target) as Hc.
  { rewrite count_matches_positions. unfold matching_positions, word_chars, len.
    f_equal.
    rewrite <- (filter_below (fun i => typed !! i = target !! i)
                  (Nat.min (length typed) (length target))
                  (Nat.max (length target) (length typed)
                   - Nat.min (length typed) (length target))).
    replace (Nat.min (length typed) (length target)
             + (Nat.max (length target) (length typed)
                - Nat.min (length typed) (length target)))%nat
      with (Nat.max (length target) (length typed)) by lia.
    generalize (seq 0 (Nat.max (length target) (length typed))). intros l.
    induction l as [|i l IH]; [reflexivity|].
    cbn [map]. rewrite !filter_cons. cbn [cs_correct].
    pose proof (char_state_correct target typed i) as Hi.
    destruct (decide (_ = true)) as [E|E];
      destruct (decide (_ /\ _)) as [F|F]; simpl; try (rewrite IH; reflexivity).
    - exfalso. apply F, Hi, E.
    - exfalso. apply E, Hi, F. }
  split; [exact Hc|]. split.
  - unfold word_chars. rewrite length_map, length_seq. reflexivity.
  - split; [apply str_eqb_eq|].
    intros E. rewrite Hc, E. rewrite count_matches_positions.
    unfold matching_positions, len. f_equal.
    rewrite Nat.min_id, filter_all by reflexivity.
    apply length_seq.
Qed.

Lemma word_state_counts_matches_witness :
  currentInput engine_midrun = lit "th" /\ getCurrentWord engine_midrun = lit "the" /\
  ws_correctCount (getCurrentWordState engine_midrun) = 2 /\
  ws_isComplete (getCurrentWordState engine_midrun) = false.
Proof.
  destruct (word_state_counts_matches engine_midrun) as (H1 & _ & _ & _).
  split; [reflexivity|]. split; [reflexivity|].
  split; [rewrite H1; reflexivity|reflexivity].
Defined.

(** ** Finishing and the stored best *)






(** ** Counters only grow within a run *)

Lemma grows_same (s s' : Engine) :
  typedChars s' = typedChars s -> correctChars s' = correctChars s ->
  currentWordIndex s' = currentWordIndex s -> wordHistory s' = wordHistory s ->
  grows s s'.
Proof.
  intros H1 H2 H3 H4. unfold grows. rewrite H1, H2, H3, H4.
  repeat split; try lia. reflexivity.
Qed.

Lemma grows_trans (s t u : Engine) : grows s t -> grows t u -> grows s u.
Proof.
  intros (A1 & A2 & A3 & A4) (B1 & B2 & B3 & B4).
  repeat split; try lia. etransitivity; eassumption.
Qed.

Lemma grows_ensure_started (now : Z) (s : Engine) : grows s (ensure_started now s).
Proof.
  destruct (ensure_started_keeps now s) as (H1 & H2 & H3 & H4 & _).
  apply grows_same; assumption.
Qed.

Lemma grows_notifyWordState (s : Engine) : grows s (notifyWordState s).
Proof.
  destruct (notifyWordState_keeps s) as (H1 & H2 & H3 & H4 & _).
  apply grows_same; assumption.
Qed.

Lemma grows_processInput (now : Z) (value : jsstring) (s : Engine) :
  grows s (processInput now value s).
Proof.
  destruct (finished s) eqn:Hf.
  { unfold processInput. rewrite Hf. apply grows_same; reflexivity. }
  destruct (ends_with_space value) eqn:He.
  - destruct (processInput_commit now value s Hf He) as (K1 & K2 & K3 & K4 & _).
    pose proof (commit_credit_bounds (space_credit s) (trim value)
                  (getCurrentWord s) (space_credit_nonneg s)).
    pose proof (len_nonneg (trim value)). pose proof (space_credit_nonneg s).
    unfold grows. rewrite K1, K2, K3, K4.
    repeat split; try lia. apply prefix_app_r. reflexivity.
  - destruct (processInput_buffer now value s Hf He) as (K1 & K2 & K3 & K4 & _).
    unfold grows. rewrite K1, K2, K3, K4. repeat split; try lia. reflexivity.
Qed.

Lemma grows_processKeystroke (now : Z) (ch : jsstring) (s : Engine) :
  grows s (processKeystroke now ch s).
Proof.
  unfold processKeystroke. destruct (finished s); [apply grows_same; reflexivity|].
  fold (ensure_started now s).
  eapply grows_trans; [apply grows_ensure_started|].
  set (s1 := ensure_started now s).
  destruct (str_eqb ch KEY_BACKSPACE).
  - eapply grows_trans; [|apply grows_notifyWordState]. apply grows_same; reflexivity.
  - assert (grows s1 (set_typedChars (typedChars (set_currentInput (currentInput s1 ++ ch) s1) + 1)
                        (set_currentInput (currentInput s1 ++ ch) s1))) as Hg.
    { unfold grows. cbn. repeat split; try lia. reflexivity. }
    eapply grows_trans; [exact Hg|].
    destruct (str_eqb ch [SPACE]); [apply grows_processInput|apply grows_notifyWordState].
Qed.

Lemma grows_finish (now : Z) (s : Engine) : grows s (finish now s).
Proof.
  destruct (finished s) eqn:Hf.
  { unfold finish. rewrite Hf. apply grows_same; reflexivity. }
  destruct (finish_fields now s Hf)
    as (_ & _ & _ & _ & _ & F6 & F7 & F8 & _ & _ & _ & _ & F13).
  unfold grows. rewrite F6, F7, F8, F13. repeat split; try lia.
  apply prefix_app_r. reflexivity.
Qed.

Lemma grows_tick (now : Z) (s : Engine) : grows s (tick now s).
Proof.
  unfold tick. destruct (negb (started s) || finished s);
    [apply grows_same; reflexivity|].
  match goal with
  | |- grows s (if _ then finish now ?t else ?t) =>
      assert (grows s t) as Ht;
      [|destruct (_ <=? 0); [eapply grows_trans; [exact Ht|apply grows_finish]|exact Ht]]
  end.
  eapply grows_trans; [|apply grows_same; reflexivity].
  unfold emit. destruct (onTick _); apply grows_same; reflexivity.
Qed.

(** X16: no call other than [resetTest], [setMode] and [setTimeLimit] ever
    lowers [typedChars] or [correctChars], moves [currentWordIndex] back or
    removes an entry of [wordHistory]; deleting input in particular takes
    nothing off [typedChars]. *)
Theorem counters_only_grow (e : Env) (op : Op) (s s' : Engine) :
  resets op = false ->
  exec e op s = Some s' ->
  typedChars s <= typedChars s' /\
  correctChars s <= correctChars s' /\
  (currentWordIndex s <= currentWordIndex s')%nat /\
  wordHistory s `prefix_of` wordHistory s'.
Proof.
  intros Hop H. change (grows s s').
  destruct op; try discriminate; cbn in H; injection H as <-.
  - destruct (start_keeps (env_now e) s) as (H1 & H2 & H3 & H4 & _).
    apply grows_same; assumption.
  - apply grows_processInput.
  - apply grows_processKeystroke.
  - apply grows_tick.
  - apply grows_finish.
  - unfold historyIntervalFires, _addHistoryPoint.
    destruct (historyInterval s); apply grows_same; reflexivity.
  - apply grows_same; reflexivity.
Qed.

Lemma counters_only_grow_witness :
  typedChars engine_midrun = 6 /\
  exec env0 (OpProcessInput (lit "t")) engine_midrun
    = Some (processInput 1000 (lit "t") engine_midrun) /\
  currentInput (processInput 1000 (lit "t") engine_midrun) = lit "t" /\
  typedChars engine_midrun <= typedChars (processInput 1000 (lit "t") engine_midrun).
Proof.
  split; [reflexivity|]. split; [reflexivity|]. split; [reflexivity|].
  apply (counters_only_grow env0 (OpProcessInput (lit "t")) engine_midrun
           (processInput 1000 (lit "t") engine_midrun) eq_refl eq_refl).
Defined.

(** ** What a run never changes *)

Lemma setup_start (now : Z) (s : Engine) : setup (start now s) = setup s.
Proof.
  unfold start, _startHistoryInterval, emit.
  destruct (started s); [reflexivity|]. cbn. destruct (onStart s); reflexivity.
Qed.

Lemma setup_ensure_started (now : Z) (s : Engine) :
  setup (ensure_started now s) = setup s.
Proof. unfold ensure_started. destruct (started s); [reflexivity|apply setup_start]. Qed.

Lemma ensure_started_clock (now : Z) (s : Engine) :
  started s = true -> ensure_started now s = s.
Proof. intros H. unfold ensure_started. rewrite H. reflexivity. Qed.

Lemma setup_notifyWordState (s : Engine) :
  setup (notifyWordState s) = setup s /\
  startedAt (notifyWordState s) = startedAt s.
Proof. unfold notifyWordState, emit. destruct (onUpdateWordState s); split; reflexivity. Qed.

Lemma processInput_from_started (now : Z) (value : jsstring) (s : Engine) :
  processInput now value s = processInput now value (ensure_started now s) \/
  processInput now value s = s.
Proof.
  destruct (finished s) eqn:Hf.
  - right. unfold processInput. rewrite Hf. reflexivity.
  - left. destruct (ensure_started_keeps now s)
      as (_ & _ & _ & _ & _ & _ & _ & _ & Hfin & _ & Hst).
    unfold processInput at 2. rewrite Hfin, Hf, Hst. cbn [negb].
    unfold processInput. rewrite Hf. reflexivity.
Qed.

Lemma setup_processInput_started (now : Z) (value : jsstring) (s : Engine) :
  started s = true ->
  setup (processInput now value s) = setup s /\
  startedAt (processInput now value s) = startedAt s.
Proof.
  intros Hs. unfold processInput. rewrite Hs. cbn [negb].
  destruct (finished s); [split; reflexivity|].
  destruct (ends_with_space value).
  - match goal with
    | |- context [notifyWordState ?t] =>
        destruct (setup_notifyWordState t) as [-> ->]
    end.
    destruct (str_eqb (trim value) (getCurrentWord s)); split; reflexivity.
  - match goal with
    | |- context [notifyWordState ?t] =>
        destruct (setup_notifyWordState t) as [-> ->]
    end.
    destruct (0 <? len value - len (currentInput s)); split; reflexivity.
Qed.

Lemma setup_processInput (now : Z) (value : jsstring) (s : Engine) :
  setup (processInput now value s) = setup s.
Proof.
  destruct (processInput_from_started now value s) as [-> | ->]; [|reflexivity].
  destruct (ensure_started_keeps now s)
    as (_ & _ & _ & _ & _ & _ & _ & _ & _ & _ & Hst).
  destruct (setup_processInput_started now value _ Hst) as [-> _].
  apply setup_ensure_started.
Qed.

Lemma setup_finish (now : Z) (s : Engine) :
  setup (finish now s) = setup s /\ startedAt (finish now s) = startedAt s.
Proof.
  unfold finish, emit. destruct (finished s); [split; reflexivity|].
  engine_cases; split; reflexivity.
Qed.

Lemma setup_tick (now : Z) (s : Engine) :
  setup (tick now s) = setup s /\ startedAt (tick now s) = startedAt s.
Proof.
  unfold tick. destruct (negb (started s) || finished s); [split; reflexivity|].
  match goal with
  | |- context [if _ then finish now ?t else ?t] =>
      assert (setup t = setup s /\ startedAt t = startedAt s) as [Ht1 Ht2]
        by (unfold _addHistoryPoint, emit; destruct (onTick _); split; reflexivity);
      destruct (timeLeft t <=? 0);
        [destruct (setup_finish now t) as [-> ->]|]; split; assumption
  end.
Qed.

Lemma setup_processKeystroke (now : Z) (ch : jsstring) (s : Engine) :
  setup (processKeystroke now ch s) = setup s /\
  (started s = true -> startedAt (processKeystroke now ch s) = startedAt s).
Proof.
  unfold processKeystroke. destruct (finished s); [split; reflexivity|].
  fold (ensure_started now s).
  assert (setup (ensure_started now s) = setup s /\
          (started s = true -> startedAt (ensure_started now s) = startedAt s))
    as [E1 E2].
  { split; [apply setup_ensure_started|].
    intros Hs. rewrite (ensure_started_clock now s Hs). reflexivity. }
  destruct (ensure_started_keeps now s)
    as (_ & _ & _ & _ & _ & _ & _ & _ & _ & _ & Hst).
  set (s1 := ensure_started now s) in *. clearbody s1.
  destruct (str_eqb ch KEY_BACKSPACE).
  - match goal with
    | |- context [notifyWordState ?t] =>
        destruct (setup_notifyWordState t) as [-> ->]
    end.
    split; assumption.
  - destruct (str_eqb ch [SPACE]).
    + match goal with
      | |- context [processInput now ?v ?t] =>
          destruct (setup_processInput_started now v t Hst) as [-> ->]
      end.
      split; assumption.
    + match goal with
      | |- context [notifyWordState ?t] =>
          destruct (setup_notifyWordState t) as [-> ->]
      end.
      split; assumption.
Qed.

(** X17: no call other than [resetTest], [setMode] and [setTimeLimit]
    changes the word list, the pool, the time limit, the mode or the seed
    size, and once the run is under way none of them moves [startedAt]:
    the clock is started once per run. *)
Theorem run_keeps_its_setup (e : Env) (op : Op) (s s' : Engine) :
  resets op = false ->
  exec e op s = Some s' ->
  words s' = words s /\ wordsPool s' = wordsPool s /\
  timeLimit s' = timeLimit s /\ mode s' = mode s /\ seedSize s' = seedSize s /\
  (started s = true -> startedAt s' = startedAt s).
Proof.
  intros Hop H.
  assert (setup s' = setup s /\ (started s = true -> startedAt s' = startedAt s))
    as [E1 E2].
  { destruct op; try discriminate; cbn in H; injection H as <-.
    - split; [apply setup_start|]. intros Hs. unfold start. rewrite Hs. reflexivity.
    - split; [apply setup_processInput|]. intros Hs.
      apply setup_processInput_started. exact Hs.
    - apply setup_processKeystroke.
    - destruct (setup_tick (env_now e) s) as [-> ->]. split; reflexivity.
    - destruct (setup_finish (env_now e) s) as [-> ->]. split; reflexivity.
    - unfold historyIntervalFires, _addHistoryPoint.
      destruct (historyInterval s); split; reflexivity.
    - split; reflexivity. }
  unfold setup in E1. injection E1 as -> -> -> -> ->.
  repeat split; try reflexivity. exact E2.
Qed.

Lemma run_keeps_its_setup_witness :
  started engine_midrun = true /\
  startedAt engine_midrun = Some 2000 /\
  startedAt (processKeystroke 5000 (lit "a") engine_midrun) = Some 2000.
Proof.
  split; [reflexivity|]. split; [reflexivity|].
  destruct (run_keeps_its_setup (mkEnv 5000 rnd0 0%nat) (OpProcessKeystroke (lit "a"))
              engine_midrun (processKeystroke 5000 (lit "a") engine_midrun)
              eq_refl eq_refl) as (_ & _ & _ & _ & _ & H).
  rewrite (H eq_refl). reflexivity.
Defined.

(** ** Raw speed *)

(** X18: in every reachable state [getRawSpeed] is 0 while no whole second
    has elapsed and otherwise exactly
    [Math.round((typedChars / 5) / (elapsed / 60))] in binary64: the
    [|| 0] never replaces a result, since [typedChars] is never negative
    there.  It is [getWPM] when every typed character was credited. *)
Theorem getRawSpeed_formula (now : Z) (s : Engine) :
  reachable s ->
  let elapsed := getElapsedSeconds now s in
  (elapsed <= 0 -> getRawSpeed now s = fzero) /\
  (0 < elapsed < 2 ^ 53 ->
     getRawSpeed now s =
       Math_round (fdiv (fdiv (of_Z (typedChars s)) (of_Z 5))
                        (fdiv (of_Z elapsed) (of_Z 60)))) /\
  (typedChars s = correctChars s -> getRawSpeed now s = getWPM now s).
Proof.
  intros Hr elapsed. destruct (reachable_Inv s Hr) as [Hle Hnn _ _].
  repeat split.
  - intros He. unfold getRawSpeed. fold elapsed.
    apply Z.leb_le in He. rewrite He. reflexivity.
  - intros He. unfold getRawSpeed. fold elapsed.
    assert ((elapsed <=? 0) = false) as -> by (apply Z.leb_gt; lia).
    apply speed_or_zero; lia.
  - intros E. unfold getRawSpeed, getWPM. rewrite E. reflexivity.
Qed.

Lemma getRawSpeed_formula_witness :
  typedChars engine_three = 12 /\
  getElapsedSeconds 7000 engine_three = 6 /\
  float_to_Z (getRawSpeed 7000 engine_three) = Some 24.
Proof.
  assert (reachable engine_three) as H3.
  { apply (run_reachable run_three engine_the).
    - apply (reach_construct 3 rnd0 1000 opts_the None). reflexivity.
    - reflexivity. }
  destruct (getRawSpeed_formula 7000 engine_three H3) as (_ & H & _).
  split; [reflexivity|]. split; [reflexivity|].
  rewrite H; [vm_compute; reflexivity|].
  change (getElapsedSeconds 7000 engine_three) with 6. lia.
Defined.

(** ** After the end *)

Lemma finished_exec_fields (e : Env) (op : Op) (s s' : Engine) :
  finished s = true -> historyInterval s = false ->
  leaves_result op = true ->
  exec e op s = Some s' ->
  result_fields s' = result_fields s.
Proof.
  intros Hf Hh Hop H.
  destruct op; try discriminate; cbn in H; injection H as <-.
  - unfold processInput. rewrite Hf. reflexivity.
  - unfold processKeystroke. rewrite Hf. reflexivity.
  - unfold tick. rewrite Hf, orb_true_r. reflexivity.
  - unfold finish. rewrite Hf. reflexivity.
  - unfold historyIntervalFires. rewrite Hh. reflexivity.
  - reflexivity.
Qed.

Lemma finished_run_fields (calls : list (Env * Op)) (s s' : Engine) :
  finished s = true -> historyInterval s = false ->
  forallb (fun c => leaves_result (snd c)) calls = true ->
  run calls s = Some s' ->
  result_fields s' = result_fields s.
Proof.
  revert s. induction calls as [|[e op] rest IH]; intros s Hf Hh Hall H; simpl in *.
  - injection H as <-. reflexivity.
  - apply andb_prop in Hall as [Hop Hall].
    destruct (exec e op s) as [s1|] eqn:E; [|discriminate].
    pose proof (finished_exec_fields e op s s1 Hf Hh Hop E) as E1.
    rewrite <- E1. apply IH; [| |exact Hall|exact H].
    + unfold result_fields in E1. congruence.
    + unfold result_fields in E1. congruence.
Qed.

Lemma elapsed_ended (now later : Z) (s s' : Engine) :
  startedAt s' = startedAt s -> endedAt s' = endedAt s ->
  truthy (endedAt s) = true ->
  getElapsedSeconds later s' = getElapsedSeconds now s.
Proof.
  intros E1 E2 Ht. unfold getElapsedSeconds. rewrite E1, E2, Ht.
  reflexivity.
Qed.

(** X19: the result of a finished test is frozen.  After [finish] at a
    time [t], whatever is typed, however often [tick], [finish] or the
    sampling timer run and whichever callbacks are replaced, the session
    stays finished, both histories and both counters stay as [finish] left
    them, and [getWPM], [getRawSpeed] and [getAccuracy] return, at any
    later time, what they returned at [t].  A direct [start()] is left
    out for a reason: on the finished session it clears [endedAt] and sets
    [startedAt] anew while [finished] stays set. *)
Theorem final_result_is_frozen (calls : list (Env * Op)) (t : Z) (s s' : Engine) :
  finished s = false ->
  t <> 0 ->
  forallb (fun c => leaves_result (snd c)) calls = true ->
  run calls (finish t s) = Some s' ->
  finished s' = true /\
  wordHistory s' = wordHistory (finish t s) /\
  wpmHistory s' = wpmHistory (finish t s) /\
  typedChars s' = typedChars s /\ correctChars s' = correctChars s /\
  (forall later, getWPM later s' = getWPM t (finish t s) /\
                 getRawSpeed later s' = getRawSpeed t (finish t s)) /\
  getAccuracy s' = getAccuracy (finish t s) /\
  (forall now, finished (start now (finish t s)) = true /\
               startedAt (start now (finish t s)) = Some now /\
               endedAt (start now (finish t s)) = None).
Proof.
  intros Hf Ht Hall H.
  destruct (finish_fields t s Hf)
    as (F1 & F2 & F3 & F4 & F5 & F6 & F7 & _).
  pose proof (finished_run_fields calls (finish t s) s' F1 F5 Hall H) as E.
  unfold result_fields in E.
  injection E as E1 E2 E3 E4 E5 E6 E7 E8.
  assert (truthy (endedAt (finish t s)) = true) as Htr.
  { rewrite F3. cbn. apply negb_true_iff, Z.eqb_neq. exact Ht. }
  repeat split.
  - congruence.
  - exact E7.
  - exact E8.
  - congruence.
  - congruence.
  - unfold getWPM.
    rewrite (elapsed_ended t later (finish t s) s' E3 E4 Htr), E6. reflexivity.
  - unfold getRawSpeed.
    rewrite (elapsed_ended t later (finish t s) s' E3 E4 Htr), E5. reflexivity.
  - unfold getAccuracy. rewrite E5, E6. reflexivity.
  - unfold start, _startHistoryInterval, emit. rewrite F2.
    cbn. destruct (onStart _); cbn; exact F1.
  - unfold start, _startHistoryInterval, emit. rewrite F2.
    cbn. destruct (onStart _); reflexivity.
  - unfold start, _startHistoryInterval, emit. rewrite F2.
    cbn. destruct (onStart _); reflexivity.
Qed.

Lemma final_result_is_frozen_witness :
  run [(mkEnv 9000 rnd0 0%nat, OpProcessInput (lit "the "));
       (mkEnv 9000 rnd0 0%nat, OpTick);
       (mkEnv 9000 rnd0 0%nat, OpHistoryInterval)]
      (finish 7000 engine_three) = Some (finish 7000 engine_three) /\
  float_to_Z (getWPM 7000 (finish 7000 engine_three)) = Some 18 /\
  getWPM 60000 (finish 7000 engine_three) = getWPM 7000 (finish 7000 engine_three).
Proof.
  assert (run [(mkEnv 9000 rnd0 0%nat, OpProcessInput (lit "the "));
               (mkEnv 9000 rnd0 0%nat, OpTick);
               (mkEnv 9000 rnd0 0%nat, OpHistoryInterval)]
              (finish 7000 engine_three) = Some (finish 7000 engine_three)) as Hrun
    by (vm_compute; reflexivity).
  split; [exact Hrun|]. split; [vm_compute; reflexivity|].
  destruct (final_result_is_frozen
              [(mkEnv 9000 rnd0 0%nat, OpProcessInput (lit "the "));
               (mkEnv 9000 rnd0 0%nat, OpTick);
               (mkEnv 9000 rnd0 0%nat, OpHistoryInterval)]
              7000 engine_three (finish 7000 engine_three) eq_refl
              ltac:(discriminate) eq_refl Hrun)
    as (_ & _ & _ & _ & _ & Hw & _).
  exact (proj1 (Hw 60000)).
Defined.
